(** * mod-geddon-binding-shard: the once-per-server grant gate

    A shallow embedding of the AzerothCore module that adds the Talisman of
    Binding Shard (item 17782) to the corpse loot of a configurable creature,
    once per server.  The repository holds two variants of the script:

    - the two-phase script (kill handler [OnPlayerCreatureKill] plus loot
      handler [OnPlayerLootItem], with [PersistDropped_KillPhase] and
      [PersistDropped_LootPhase]), embedded in [Module TwoPhase];
    - [src/mod_talisman_of_binding_shard.cpp], the single-phase script whose
      kill handler also announces ([PersistDropped], [AnnounceDrop]),
      embedded in [Module SinglePhase].

    Everything the two scripts share textually is embedded once.

    Data: [uint32]/[uint64] values are [Z] with the wrap-around written where
    the source converts; [double] and [float] are IEEE-754 binary64 and
    binary32 values in the Standard Library's executable specification
    ([spec_float], round to nearest even); [std::string] is [string] (a
    sequence of bytes); nullable pointers are [option]. *)

From Stdlib Require Import ZArith List String Ascii Bool Lia.
From Stdlib Require Import QArith Qround.
From Stdlib Require Import SpecFloat.
Import ListNotations.

Local Open Scope Z_scope.

(** ** IEEE-754 doubles and floats *)

Module Double.
Definition prec : Z := 53.
Definition emax : Z := 1024.

Definition double := spec_float.

Definition valid (x : double) : bool := valid_binary prec emax x.

Definition mul : double -> double -> double := SFmul prec emax.
Definition add : double -> double -> double := SFadd prec emax.
Definition leb : double -> double -> bool := SFleb.
Definition ltb : double -> double -> bool := SFltb.

(** The literals of the source, as binary64 values. *)
Definition of_Z (z : Z) : double := binary_normalize prec emax z 0 false.
Definition d0 : double := S754_zero false.                       (* 0.0 *)
Definition d100 : double := S754_finite false 7036874417766400 (-46).   (* 100.0 *)
Definition d0_5 : double := S754_finite false 4503599627370496 (-53).   (* 0.5 *)
Definition d1 : double := S754_finite false 4503599627370496 (-52).     (* 1.0 *)
(** The double nearest to 0.005 (the source has no such literal; it is the
    bound below which the roll can never pass). *)
Definition d0_005 : double := S754_finite false 5764607523034235 (-60).

(** The exact rational value of a finite double; 0 for the others. *)
Definition to_Q (x : double) : Q :=
  match x with
  | S754_finite s m e =>
      let z := if s then Zneg m else Zpos m in
      match e with
      | Zneg p => (z # (2 ^ p))%Q
      | _ => inject_Z (z * 2 ^ e)
      end
  | _ => 0%Q
  end.

(** The canonical binary64 representation of [N * 2^a], for [N] of at most
    53 bits and [a] in the range of normal numbers. *)
Definition norm64 (s : bool) (N : positive) (a : Z) : double :=
  let u := 53 - Zpos (Pos.size N) in
  S754_finite s (Z.to_pos (Zpos N * 2 ^ u)) (a - u).

(** [static_cast<uint32>(x)]: truncation toward zero.  C++ leaves the
    conversion undefined for NaN, infinities and values outside the range
    of [uint32]; the model returns the truncated integer modulo 2^32 for
    finite values and 0 for the others. *)
Definition trunc (x : double) : Z :=
  match x with
  | S754_finite s m e =>
      let a := match e with
               | Zneg p => Z.shiftr (Zpos m) (Zpos p)
               | _ => Z.shiftl (Zpos m) e
               end in
      if s then - a else a
  | _ => 0
  end.

Definition to_uint32 (x : double) : Z := trunc x mod 2 ^ 32.
End Double.

Module Single.
Definition prec : Z := 24.
Definition emax : Z := 128.

Definition single := spec_float.

Definition valid (x : single) : bool := valid_binary prec emax x.

Definition f1 : single := S754_finite false 8388608 (-23).       (* 1.0f *)

(** The implicit conversion [float] -> [double]: every binary32 value is a
    binary64 value; only the mantissa is re-aligned to 53 bits. *)
Definition to_double (x : single) : Double.double :=
  match x with
  | S754_finite s m e => binary_round Double.prec Double.emax s m e
  | _ => x
  end.
End Single.

Definition double : Type := Double.double.
Definition single : Type := Single.single.

(** ** Constants *)

Definition NPC_BARON_GEDDON : Z := 12056.
Definition ITEM_TALISMAN : Z := 17782.

(** ** Roll engine *)

(** [uint32 const scale = 10000]: 100.00 percent. *)
Definition scale : Z := 10000.

(** [static_cast<uint32>(gConf.chancePct * 100.0 + 0.5)]. *)
Definition need_of (chancePct : double) : Z :=
  Double.to_uint32 (Double.add (Double.mul chancePct Double.d100) Double.d0_5).

(** [RollDrop].  [chancePct] is [gConf.chancePct]; [urand] is the answer of
    the server's random source on this call, as a function of the bounds it
    is asked for. *)
Definition RollDrop (urand : Z -> Z -> Z) (chancePct : double) : bool :=
  if Double.leb chancePct Double.d0 then false
  else if Double.leb Double.d100 chancePct then true
  else
    let roll := urand 1 scale in
    let need := need_of chancePct in
    roll <=? need.

(** [round(chancePct * 100)] in the words of the specification: the exact
    product, rounded to the nearest integer, halves up. *)
Definition round_chance (chancePct : double) : Z :=
  Qfloor (Double.to_Q chancePct * (100 # 1) + (1 # 2))%Q.

(** ** Data model *)

(** [struct ShardConfig]. *)
Record ShardConfig := {
  enable : bool;
  npcEntry : Z;                 (* uint32 *)
  chancePct : double;
  allowRepeat : bool;
  resetOnStart : bool
}.

(** The constructor defaults of [ShardConfig] ([static ShardConfig gConf]). *)
Definition default_conf : ShardConfig :=
  {| enable := true; npcEntry := NPC_BARON_GEDDON; chancePct := Double.d1;
     allowRepeat := false; resetOnStart := false |}.

(** The row of [mod_geddon_once_drop] whose [keyname] is [KEY_NAME]:
    [dropped TINYINT(1)], [last_drop_time BIGINT UNSIGNED],
    [last_killer VARCHAR(64) DEFAULT NULL]. *)
Record Row := {
  dropped : Z;
  last_drop_time : Z;
  last_killer : option string
}.

(** [Player]: only [GetName()] is used. *)
Record Player := { player_name : string }.

(** [LootStoreItem], with the fields [MakeLootStoreItem] sets. *)
Record LootStoreItem := {
  lsi_itemid : Z;
  lsi_reference : Z;
  lsi_chance_is_100 : bool;
  lsi_needs_quest : bool;
  lsi_groupid : Z;
  lsi_mincount : Z;
  lsi_maxcount : Z
}.

(** [LootItem]: only [itemid] is read by the module. *)
Record LootItem := { itemid : Z; count : Z }.

(** [Loot]: the two item vectors [LootHasItem] scans. *)
Record Loot := { items : list LootItem; quest_items : list LootItem }.

(** [Creature]: [GetEntry()], [GetName()] and the public member [loot]. *)
Record Creature := { entry : Z; creature_name : string; loot : Loot }.

(** [Item]: only [GetEntry()] is used. *)
Record Item := { item_entry : Z }.

(** [ObjectGuid], as far as [IsCreature()] / [IsGameObject()] tell. *)
Inductive ObjectGuid :=
| GuidCreature (low : Z)
| GuidGameObject (low : Z)
| GuidOther (low : Z).

(** The lines the module writes with [LOG_INFO]. *)
Inductive LogLine :=
| LogReset
| LogConfig (c : ShardConfig) (npcName : string) (alreadyDropped : bool)
| LogAdded (item : Z) (creature : string) (repeat : bool).

(** What the module does to its collaborators, in program order (newest
    first): calls of [Loot::AddItem], global chat messages, log lines. *)
Inductive Effect :=
| CallAddItem (item : LootStoreItem)
| SendGlobalMessage (msg : string)
| LogInfo (line : LogLine).

(** The module's globals and the persisted row.  [db = None] stands for a
    missing table or row: a query then yields no result and an [UPDATE]
    changes nothing. *)
Record World := {
  gConf : ShardConfig;
  gAlreadyDropped : bool;
  db : option Row;
  effects : list Effect
}.

Definition set_conf (c : ShardConfig) (w : World) : World :=
  {| gConf := c; gAlreadyDropped := gAlreadyDropped w; db := db w;
     effects := effects w |}.

Definition store_dropped (b : bool) (w : World) : World :=
  {| gConf := gConf w; gAlreadyDropped := b; db := db w;
     effects := effects w |}.

Definition set_db (d : option Row) (w : World) : World :=
  {| gConf := gConf w; gAlreadyDropped := gAlreadyDropped w; db := d;
     effects := effects w |}.

Definition emit (e : Effect) (w : World) : World :=
  {| gConf := gConf w; gAlreadyDropped := gAlreadyDropped w; db := db w;
     effects := e :: effects w |}.

(** [UPDATE ... WHERE keyname = KEY_NAME]: rewrites the row when it exists. *)
Definition sql_update (f : Row -> Row) (w : World) : World :=
  set_db (option_map f (db w)) w.

(** ** The text of a statement that carries a name

    The persist functions build their statement as text, the name between
    two apostrophes, and hand it over as [StringFormat(...).c_str()].  The
    database reads that C string up to its first NUL byte, so a NUL byte in
    the name ends the statement inside the literal.  The other bytes of the
    literal are read by the MySQL server with its backslash escapes (the
    server default): a backslash and the byte after it stand for one byte,
    and a backslash that is the last byte of the name takes the closing
    apostrophe with it.  A statement whose literal is left open is rejected
    and changes nothing.  Bytes above 127 are passed on as they are; what a
    server stores for them depends on its character set, and the properties
    that name the value stored are stated for ASCII names. *)
Definition nul : ascii := "000"%char.
Definition backslash : ascii := "092"%char.

Fixpoint has_nul (s : string) : bool :=
  match s with
  | EmptyString => false
  | String ch rest => (Ascii.eqb ch nul || has_nul rest)%bool
  end.

(** What the server makes of the byte [c] after a backslash: [0 b n r t Z]
    name a control character, a percent sign or an underscore keeps its
    backslash, any other byte stands for itself. *)
Definition unescape (c : ascii) : string :=
  if Ascii.eqb c "0"%char then String nul EmptyString
  else if Ascii.eqb c "b"%char then String "008"%char EmptyString
  else if Ascii.eqb c "n"%char then String "010"%char EmptyString
  else if Ascii.eqb c "r"%char then String "013"%char EmptyString
  else if Ascii.eqb c "t"%char then String "009"%char EmptyString
  else if Ascii.eqb c "Z"%char then String "026"%char EmptyString
  else if (Ascii.eqb c "%"%char || Ascii.eqb c "_"%char)%bool
       then String backslash (String c EmptyString)
  else String c EmptyString.

(** The value of the literal whose text, free of apostrophes, is [s];
    [None] when its last backslash escapes the closing apostrophe. *)
Fixpoint read_literal (s : string) : option string :=
  match s with
  | EmptyString => Some EmptyString
  | String ch rest =>
      if Ascii.eqb ch backslash then
        match rest with
        | EmptyString => None
        | String c rest' =>
            option_map (fun v => (unescape c ++ v)%string) (read_literal rest')
        end
      else option_map (String ch) (read_literal rest)
  end.

(** The value the server stores for the literal text [text] sent through
    [c_str()], [None] when it rejects the statement. *)
Definition sent_literal (text : string) : option string :=
  if has_nul text then None else read_literal text.

(** [DirectExecute] of an [UPDATE] whose text carries the literal [text]:
    the row is rewritten with the value read, when the statement stands. *)
Definition sql_update_named (text : string) (f : string -> Row -> Row)
    (w : World) : World :=
  match sent_literal text with
  | Some stored => sql_update (f stored) w
  | None => w
  end.

(** ** Persistence *)

(** [EnsureTable]: [CREATE TABLE IF NOT EXISTS] then [INSERT IGNORE] of the
    row [(KEY_NAME, 0, 0, NULL)]. *)
Definition EnsureTable (w : World) : World :=
  match db w with
  | Some _ => w
  | None => set_db (Some {| dropped := 0; last_drop_time := 0;
                            last_killer := None |}) w
  end.

(** [LoadDroppedState]. *)
Definition LoadDroppedState (w : World) : World :=
  match db w with
  | Some r => store_dropped (negb (dropped r =? 0)) w
  | None => store_dropped false w
  end.

(** [MaybeResetState]. *)
Definition MaybeResetState (w : World) : World :=
  if negb (resetOnStart (gConf w)) then w
  else
    let w1 := sql_update (fun _ => {| dropped := 0; last_drop_time := 0;
                                      last_killer := None |}) w in
    let w2 := store_dropped false w1 in
    emit (LogInfo LogReset) w2.

(** The name clean-up both persist functions perform: [name.resize(63)] when
    [name.size() > 63], then every byte of [name] that is an apostrophe
    (code 39) or a quotation mark (code 34) becomes an underscore. *)
Definition quote1 : ascii := "039"%char.
Definition quote2 : ascii := "034"%char.

Definition resize63 (name : string) : string :=
  if (63 <? String.length name)%nat then substring 0 63 name else name.

Definition clean_char (ch : ascii) : ascii :=
  if (Ascii.eqb ch quote1 || Ascii.eqb ch quote2)%bool then "_"%char else ch.

Fixpoint clean_quotes (name : string) : string :=
  match name with
  | EmptyString => EmptyString
  | String ch rest => String (clean_char ch) (clean_quotes rest)
  end.

Definition clean_name (name : string) : string := clean_quotes (resize63 name).

(** [static_cast<uint64>(std::time(nullptr))], [t] being what [std::time]
    returns. *)
Definition now_of (t : Z) : Z := t mod 2 ^ 64.

Definition name_of (p : option Player) : string :=
  match p with
  | Some pl => player_name pl
  | None => EmptyString
  end.

Definition is_empty (s : string) : bool :=
  match s with
  | EmptyString => true
  | _ => false
  end.

(** [PersistDropped_KillPhase] of the two-phase script; [PersistDropped] of
    the single-phase script has the same body. *)
Definition PersistDropped_KillPhase (killer : option Player) (t : Z)
    (w : World) : World :=
  if allowRepeat (gConf w) then w
  else
    let now := now_of t in
    let name := name_of killer in
    let w1 :=
      if is_empty name then
        sql_update (fun _ => {| dropped := 1; last_drop_time := now;
                                last_killer := None |}) w
      else
        sql_update_named (clean_name name)
          (fun stored _ => {| dropped := 1; last_drop_time := now;
                              last_killer := Some stored |}) w in
    store_dropped true w1.

(** [PersistDropped_LootPhase] (two-phase script only). *)
Definition PersistDropped_LootPhase (looter : option Player) (t : Z)
    (w : World) : World :=
  if allowRepeat (gConf w) then w
  else
    let now := now_of t in
    let name := name_of looter in
    if is_empty name then w
    else
      sql_update_named (clean_name name)
        (fun stored r => {| dropped := dropped r; last_drop_time := now;
                            last_killer := Some stored |}) w.

(** ** Loot helpers *)

(** [MakeLootStoreItem]. *)
Definition MakeLootStoreItem (itemId : Z) : LootStoreItem :=
  {| lsi_itemid := itemId; lsi_reference := 0; lsi_chance_is_100 := true;
     lsi_needs_quest := false; lsi_groupid := 0;
     lsi_mincount := 1; lsi_maxcount := 1 |}.

(** [LootHasItem]; the handlers pass [&killed->loot], never null. *)
Definition LootHasItem (l : option Loot) (itemId : Z) : bool :=
  match l with
  | None => false
  | Some lt =>
      if existsb (fun it => itemid it =? itemId) (items lt) then true
      else if existsb (fun it => itemid it =? itemId) (quest_items lt) then true
      else false
  end.

(** ** Host collaborators

    Code of the server core that the module calls and that is not part of
    the module: [Loot::AddItem], the creature-template table of
    [sObjectMgr], and the object look-ups of [ObjectAccessor] (each reduced
    to the name the module reads from the object found). *)
Record Host := {
  Loot_AddItem : LootStoreItem -> Loot -> Loot;
  GetCreatureTemplate : Z -> option string;
  GetCreature : Player -> ObjectGuid -> option string;
  GetGameObject : Player -> ObjectGuid -> option string
}.

(** The options [sConfigMgr] holds; [None] is an option that is not set, for
    which [GetOption] returns the default it is given. *)
Record ConfigMgr := {
  opt_Enable : option bool;
  opt_NpcEntry : option Z;
  opt_Chance : option single;
  opt_AllowRepeat : option bool;
  opt_ResetOnStartup : option bool
}.

Definition GetOption {A : Type} (o : option A) (def : A) : A :=
  match o with
  | Some v => v
  | None => def
  end.

Section Shared.
Context (host : Host).

(** [AddOneToLoot]. *)
Definition AddOneToLoot (l : option Loot) (itemId : Z) (w : World)
    : World * option Loot :=
  match l with
  | None => (w, None)
  | Some lt =>
      let it := MakeLootStoreItem itemId in
      (emit (CallAddItem it) w, Some (Loot_AddItem host it lt))
  end.

(** The configuration part of [OnAfterConfigLoad]: the five [GetOption]
    reads, the rewrite of entry 0 and the clamp of the chance. *)
Definition load_conf (cfg : ConfigMgr) : ShardConfig :=
  let e := GetOption (opt_Enable cfg) true in
  let n := GetOption (opt_NpcEntry cfg) NPC_BARON_GEDDON in
  let c := Single.to_double (GetOption (opt_Chance cfg) Single.f1) in
  let a := GetOption (opt_AllowRepeat cfg) false in
  let r := GetOption (opt_ResetOnStartup cfg) false in
  let n := if n =? 0 then NPC_BARON_GEDDON else n in
  let c := if Double.ltb c Double.d0 then Double.d0 else c in
  let c := if Double.ltb Double.d100 c then Double.d100 else c in
  {| enable := e; npcEntry := n; chancePct := c; allowRepeat := a;
     resetOnStart := r |}.

(** [GeddonShard_World::OnAfterConfigLoad]. *)
Definition OnAfterConfigLoad (cfg : ConfigMgr) (w : World) : World :=
  let w := set_conf (load_conf cfg) w in
  let w := EnsureTable w in
  let w := MaybeResetState w in
  let w := LoadDroppedState w in
  let npcName :=
    match GetCreatureTemplate host (npcEntry (gConf w)) with
    | Some n => n
    | None => "Unknown"%string
    end in
  emit (LogInfo (LogConfig (gConf w) npcName (gAlreadyDropped w))) w.
End Shared.

(** ** The two-phase script *)

Module TwoPhase.
Section WithHost.
Context (host : Host).

(** [GetLootSourceName]. *)
Definition GetLootSourceName (w : World) (player : option Player)
    (lootGuid : ObjectGuid) : string :=
  match player with
  | None => "their foe"%string
  | Some p =>
      let found :=
        match lootGuid with
        | GuidCreature _ => GetCreature host p lootGuid
        | GuidGameObject _ => GetGameObject host p lootGuid
        | GuidOther _ => None
        end in
      match found with
      | Some n => n
      | None =>
          match GetCreatureTemplate host (npcEntry (gConf w)) with
          | Some n => n
          | None => "their foe"%string
          end
      end
  end.

(** [AnnounceDrop_PlayerLoot]. *)
Definition AnnounceDrop_PlayerLoot (looter : option Player)
    (lootGuid : ObjectGuid) (w : World) : World :=
  let who := match looter with
             | Some p => player_name p
             | None => "Someone"%string
             end in
  let bossName := GetLootSourceName w looter lootGuid in
  let msg := (who ++ " has looted the legendary Talisman of Binding Shard from "
                  ++ bossName ++ "!")%string in
  emit (SendGlobalMessage msg) w.

(** [GeddonShard_Player::OnPlayerCreatureKill]; [t] is what [std::time]
    answers, [urand] what the random source answers, and the creature
    returned is [*killed] after the call. *)
Definition OnPlayerCreatureKill (w : World) (killer : option Player)
    (killed : option Creature) (t : Z) (urand : Z -> Z -> Z)
    : World * option Creature :=
  match killer, killed with
  | Some _, Some cr =>
      if negb (enable (gConf w)) then (w, killed)
      else if negb (entry cr =? npcEntry (gConf w)) then (w, killed)
      else if negb (allowRepeat (gConf w)) && gAlreadyDropped w
      then (w, killed)
      else if LootHasItem (Some (loot cr)) ITEM_TALISMAN then (w, killed)
      else if negb (RollDrop urand (chancePct (gConf w))) then (w, killed)
      else
        let '(w1, l1) := AddOneToLoot host (Some (loot cr)) ITEM_TALISMAN w in
        let cr1 := {| entry := entry cr; creature_name := creature_name cr;
                      loot := match l1 with
                              | Some l => l
                              | None => loot cr
                              end |} in
        let w2 := PersistDropped_KillPhase killer t w1 in
        let w3 := emit (LogInfo (LogAdded ITEM_TALISMAN (creature_name cr)
                                          (allowRepeat (gConf w2)))) w2 in
        (w3, Some cr1)
  | _, _ => (w, killed)
  end.

(** [GeddonShard_Player::OnPlayerLootItem]. *)
Definition OnPlayerLootItem (w : World) (looter : option Player)
    (item : option Item) (lootGuid : ObjectGuid) (t : Z) : World :=
  match looter, item with
  | Some _, Some it =>
      if negb (enable (gConf w)) then w
      else if negb (item_entry it =? ITEM_TALISMAN) then w
      else
        let w1 := AnnounceDrop_PlayerLoot looter lootGuid w in
        PersistDropped_LootPhase looter t w1
  | _, _ => w
  end.
End WithHost.
End TwoPhase.

(** ** The single-phase script ([src/mod_talisman_of_binding_shard.cpp]) *)

Module SinglePhase.
Section WithHost.
Context (host : Host).

(** [PersistDropped]: the body is that of [PersistDropped_KillPhase]. *)
Definition PersistDropped (killer : option Player) (t : Z) (w : World)
    : World :=
  if allowRepeat (gConf w) then w
  else
    let now := now_of t in
    let name := name_of killer in
    let w1 :=
      if is_empty name then
        sql_update (fun _ => {| dropped := 1; last_drop_time := now;
                                last_killer := None |}) w
      else
        sql_update_named (clean_name name)
          (fun stored _ => {| dropped := 1; last_drop_time := now;
                              last_killer := Some stored |}) w in
    store_dropped true w1.

(** [AnnounceDrop]. *)
Definition AnnounceDrop (killer : option Player) (killed : option Creature)
    (w : World) : World :=
  let who := match killer with
             | Some p => player_name p
             | None => "Someone"%string
             end in
  let bossName :=
    match killed with
    | Some cr => creature_name cr
    | None =>
        match GetCreatureTemplate host (npcEntry (gConf w)) with
        | Some n => n
        | None => "their foe"%string
        end
    end in
  let msg := (who ++ " has defeated " ++ bossName
                  ++ " and claimed the legendary Talisman of Binding Shard!")%string in
  emit (SendGlobalMessage msg) w.

(** [GeddonShard_Player::OnPlayerCreatureKill]. *)
Definition OnPlayerCreatureKill (w : World) (killer : option Player)
    (killed : option Creature) (t : Z) (urand : Z -> Z -> Z)
    : World * option Creature :=
  match killer, killed with
  | Some _, Some cr =>
      if negb (enable (gConf w)) then (w, killed)
      else if negb (entry cr =? npcEntry (gConf w)) then (w, killed)
      else if negb (allowRepeat (gConf w)) && gAlreadyDropped w
      then (w, killed)
      else if LootHasItem (Some (loot cr)) ITEM_TALISMAN then (w, killed)
      else if negb (RollDrop urand (chancePct (gConf w))) then (w, killed)
      else
        let '(w1, l1) := AddOneToLoot host (Some (loot cr)) ITEM_TALISMAN w in
        let cr1 := {| entry := entry cr; creature_name := creature_name cr;
                      loot := match l1 with
                              | Some l => l
                              | None => loot cr
                              end |} in
        let w2 := PersistDropped killer t w1 in
        let w3 := AnnounceDrop killer (Some cr1) w2 in
        let w4 := emit (LogInfo (LogAdded ITEM_TALISMAN (creature_name cr)
                                          (allowRepeat (gConf w3)))) w3 in
        (w4, Some cr1)
  | _, _ => (w, killed)
  end.
End WithHost.
End SinglePhase.

(** ** Runs of kill occurrences *)

Definition KillHandler : Type :=
  World -> option Player -> option Creature -> Z -> (Z -> Z -> Z)
  -> World * option Creature.

(** The corpses of the map are shared objects: an occurrence names the
    creature it kills by its position in [corpses], and what the handler
    does to [killed->loot] is seen by every later occurrence that names the
    same creature.  A reference that names no creature is the null pointer. *)
Record Server := { world : World; corpses : list Creature }.

Record KillOcc := {
  ko_killer : option Player;
  ko_killed : option nat;
  ko_time : Z;
  ko_urand : Z -> Z -> Z
}.

Fixpoint set_nth {A : Type} (i : nat) (x : A) (l : list A) : list A :=
  match l, i with
  | [], _ => []
  | _ :: tl, O => x :: tl
  | hd :: tl, S j => hd :: set_nth j x tl
  end.

Definition deref (s : Server) (ref : option nat) : option Creature :=
  match ref with
  | Some i => nth_error (corpses s) i
  | None => None
  end.

Definition kill_step (h : KillHandler) (s : Server) (k : KillOcc) : Server :=
  let '(w', killed') :=
    h (world s) (ko_killer k) (deref s (ko_killed k)) (ko_time k) (ko_urand k) in
  {| world := w';
     corpses := match ko_killed k, killed' with
                | Some i, Some c => set_nth i c (corpses s)
                | _, _ => corpses s
                end |}.

Definition run_kills (h : KillHandler) (s : Server) (ks : list KillOcc)
    : Server :=
  fold_left (kill_step h) ks s.

(** ** Observations *)

(** Calls of [Loot::AddItem] for the reward item. *)
Definition is_talisman_insert (e : Effect) : bool :=
  match e with
  | CallAddItem it => lsi_itemid it =? ITEM_TALISMAN
  | _ => false
  end.

Definition insertions (w : World) : nat :=
  List.length (filter is_talisman_insert (effects w)).

(** Server-wide announcements, newest first. *)
Fixpoint broadcasts_of (es : list Effect) : list string :=
  match es with
  | [] => []
  | SendGlobalMessage m :: tl => m :: broadcasts_of tl
  | _ :: tl => broadcasts_of tl
  end.

Definition broadcasts (w : World) : list string := broadcasts_of (effects w).

(** The persisted granted flag, read the way [LoadDroppedState] reads it. *)
Definition granted (w : World) : bool :=
  match db w with
  | Some r => negb (dropped r =? 0)
  | None => false
  end.

(** ** The operations of the module *)

Inductive Operation :=
| CallEnsureTable
| CallLoadDroppedState
| CallMaybeResetState
| CallPersistDropped_KillPhase (killer : option Player) (t : Z)
| CallPersistDropped_LootPhase (looter : option Player) (t : Z)
| CallPersistDropped (killer : option Player) (t : Z)
| CallAnnounceDrop_PlayerLoot (looter : option Player) (lootGuid : ObjectGuid)
| CallAnnounceDrop (killer : option Player) (killed : option Creature)
| CallAddOneToLoot (l : option Loot) (itemId : Z)
| CallOnAfterConfigLoad (cfg : ConfigMgr)
| CallOnPlayerCreatureKill (killer : option Player) (killed : option Creature)
    (t : Z) (urand : Z -> Z -> Z)
| CallOnPlayerLootItem (looter : option Player) (item : option Item)
    (lootGuid : ObjectGuid) (t : Z)
| CallOnPlayerCreatureKill_single (killer : option Player)
    (killed : option Creature) (t : Z) (urand : Z -> Z -> Z).

Definition exec (host : Host) (op : Operation) (w : World) : World :=
  match op with
  | CallEnsureTable => EnsureTable w
  | CallLoadDroppedState => LoadDroppedState w
  | CallMaybeResetState => MaybeResetState w
  | CallPersistDropped_KillPhase killer t => PersistDropped_KillPhase killer t w
  | CallPersistDropped_LootPhase looter t => PersistDropped_LootPhase looter t w
  | CallPersistDropped killer t => SinglePhase.PersistDropped killer t w
  | CallAnnounceDrop_PlayerLoot looter g =>
      TwoPhase.AnnounceDrop_PlayerLoot host looter g w
  | CallAnnounceDrop killer killed => SinglePhase.AnnounceDrop host killer killed w
  | CallAddOneToLoot l itemId => fst (AddOneToLoot host l itemId w)
  | CallOnAfterConfigLoad cfg => OnAfterConfigLoad host cfg w
  | CallOnPlayerCreatureKill killer killed t urand =>
      fst (TwoPhase.OnPlayerCreatureKill host w killer killed t urand)
  | CallOnPlayerLootItem looter item g t =>
      TwoPhase.OnPlayerLootItem host w looter item g t
  | CallOnPlayerCreatureKill_single killer killed t urand =>
      fst (SinglePhase.OnPlayerCreatureKill host w killer killed t urand)
  end.

(** The operations that run the explicit reset: [MaybeResetState] with
    [gConf.resetOnStart] set, and a configuration load whose
    [GeddonShard.ResetOnStartup] option is set. *)
Definition performs_reset (op : Operation) (w : World) : bool :=
  match op with
  | CallMaybeResetState => resetOnStart (gConf w)
  | CallOnAfterConfigLoad cfg => GetOption (opt_ResetOnStartup cfg) false
  | _ => false
  end.

(** ** A sample host and sample data *)

Definition push_back (it : LootStoreItem) (l : Loot) : Loot :=
  let li := {| itemid := lsi_itemid it; count := lsi_maxcount it |} in
  if lsi_needs_quest it
  then {| items := items l; quest_items := quest_items l ++ [li] |}
  else {| items := items l ++ [li]; quest_items := quest_items l |}.

Definition sample_host : Host :=
  {| Loot_AddItem := push_back;
     GetCreatureTemplate :=
       fun e => if e =? NPC_BARON_GEDDON then Some "Baron Geddon"%string
                else None;
     GetCreature := fun _ _ => None;
     GetGameObject := fun _ _ => None |}.

Definition alice : Player := {| player_name := "Alice" |}.
Definition bob : Player := {| player_name := "Bob" |}.

Definition geddon : Creature :=
  {| entry := NPC_BARON_GEDDON; creature_name := "Baron Geddon";
     loot := {| items := [{| itemid := 17011; count := 2 |}];
                quest_items := [] |} |}.

Definition conf_always : ShardConfig :=
  {| enable := true; npcEntry := NPC_BARON_GEDDON; chancePct := Double.d100;
     allowRepeat := false; resetOnStart := false |}.

Definition conf_repeat : ShardConfig :=
  {| enable := true; npcEntry := NPC_BARON_GEDDON; chancePct := Double.d100;
     allowRepeat := true; resetOnStart := false |}.

Definition fresh_row : Row :=
  {| dropped := 0; last_drop_time := 0; last_killer := None |}.

Definition world_ready : World :=
  {| gConf := conf_always; gAlreadyDropped := false; db := Some fresh_row;
     effects := [] |}.

Definition world_repeat : World :=
  {| gConf := conf_repeat; gAlreadyDropped := false; db := Some fresh_row;
     effects := [] |}.

Definition world_granted : World :=
  {| gConf := conf_always; gAlreadyDropped := true;
     db := Some {| dropped := 1; last_drop_time := 1700000000;
                   last_killer := Some "Alice"%string |};
     effects := [] |}.

Definition low_roll : Z -> Z -> Z := fun lo _ => lo.

Definition server_ready : Server :=
  {| world := world_ready; corpses := [geddon; geddon] |}.

Definition kill_by (p : Player) (i : nat) (t : Z) : KillOcc :=
  {| ko_killer := Some p; ko_killed := Some i; ko_time := t;
     ko_urand := low_roll |}.

(** The guard of both kill handlers: the occurrence reaches [AddOneToLoot]
    exactly when this holds. *)
Definition kill_passes (w : World) (killer : option Player)
    (killed : option Creature) (urand : Z -> Z -> Z) : bool :=
  match killer, killed with
  | Some _, Some cr =>
      enable (gConf w)
      && (entry cr =? npcEntry (gConf w))
      && negb (negb (allowRepeat (gConf w)) && gAlreadyDropped w)
      && negb (LootHasItem (Some (loot cr)) ITEM_TALISMAN)
      && RollDrop urand (chancePct (gConf w))
  | _, _ => false
  end.

(** [*killed] after [AddOneToLoot(&killed->loot, ITEM_TALISMAN)]. *)
Definition with_talisman (host : Host) (cr : Creature) : Creature :=
  {| entry := entry cr; creature_name := creature_name cr;
     loot := Loot_AddItem host (MakeLootStoreItem ITEM_TALISMAN) (loot cr) |}.

(** Control characters of ASCII: codes below 32, and 127. *)
Definition is_control (ch : ascii) : bool :=
  ((nat_of_ascii ch <? 32)%nat || (nat_of_ascii ch =? 127)%nat)%bool.

Definition is_quote (ch : ascii) : bool :=
  (Ascii.eqb ch quote1 || Ascii.eqb ch quote2)%bool.

(** A player name with a control character (BEL) in it. *)
Definition bell_name : string := String "A" (String "007" (String "b" EmptyString)).

Definition geddon_looted : Creature :=
  {| entry := NPC_BARON_GEDDON; creature_name := "Baron Geddon";
     loot := {| items := [{| itemid := 17011; count := 2 |};
                          {| itemid := ITEM_TALISMAN; count := 1 |}];
                quest_items := [] |} |}.

Definition world_repeat_granted : World :=
  {| gConf := conf_repeat; gAlreadyDropped := true;
     db := Some {| dropped := 1; last_drop_time := 1700000000;
                   last_killer := Some "Alice"%string |};
     effects := [] |}.

Definition cfg_reset : ConfigMgr :=
  {| opt_Enable := None; opt_NpcEntry := None; opt_Chance := None;
     opt_AllowRepeat := None; opt_ResetOnStartup := Some true |}.

Definition cfg_plain : ConfigMgr :=
  {| opt_Enable := None; opt_NpcEntry := None; opt_Chance := None;
     opt_AllowRepeat := None; opt_ResetOnStartup := None |}.

(** A backslash in the text. *)
Fixpoint has_backslash (s : string) : bool :=
  match s with
  | EmptyString => false
  | String ch rest => (Ascii.eqb ch backslash || has_backslash rest)%bool
  end.

(** A byte every server configuration stores as it is given: an ASCII byte
    (code below 128) other than NUL and backslash. *)
Definition plain_byte (ch : ascii) : bool :=
  (negb (Ascii.eqb ch nul) && negb (Ascii.eqb ch backslash)
   && (nat_of_ascii ch <? 128)%nat)%bool.

(** A text of such bytes. *)
Fixpoint plain (s : string) : bool :=
  match s with
  | EmptyString => true
  | String ch rest => (plain_byte ch && plain rest)%bool
  end.

(** A name whose kill-phase statement surely stands: it is empty (the
    statement carries [NULL]) or its first 63 bytes are plain. *)
Definition name_plain (name : string) : bool :=
  (is_empty name || plain (clean_name name))%bool.

(** A player name with a NUL byte in it. *)
Definition nul_name : string := String "A" (String nul (String "b" EmptyString)).

Definition mallory : Player := {| player_name := nul_name |}.

(** At most one insertion over the run [ks] from [s], and the in-memory flag
    set at the end of the run as soon as some prefix of it has inserted. *)
Definition once_only (h : KillHandler) (s : Server) (ks : list KillOcc)
    : Prop :=
  (insertions (world (run_kills h s ks)) <= insertions (world s) + 1)%nat
  /\ forall ks1 ks2, ks = ks1 ++ ks2 ->
       (insertions (world s) < insertions (world (run_kills h s ks1)))%nat ->
       gAlreadyDropped (world (run_kills h s ks)) = true.

(** The persisted flag is set at the end of the run [ks] from [s] as soon as
    some prefix of it has inserted. *)
Definition row_closed (h : KillHandler) (s : Server) (ks : list KillOcc)
    : Prop :=
  forall ks1 ks2, ks = ks1 ++ ks2 ->
    (insertions (world s) < insertions (world (run_kills h s ks1)))%nat ->
    granted (world (run_kills h s ks)) = true.

(** The killers of the run have such names. *)
Definition names_plain (ks : list KillOcc) : Prop :=
  Forall (fun k => name_plain (name_of (ko_killer k)) = true) ks.

(** What the once-only argument needs of a kill handler. *)
Definition gated (h : KillHandler) : Prop :=
  forall w killer killed t urand,
    allowRepeat (gConf w) = false ->
    let w' := fst (h w killer killed t urand) in
    (gAlreadyDropped w = true -> w' = w)
    /\ (w' = w
        \/ (allowRepeat (gConf w') = false
            /\ insertions w' = S (insertions w)
            /\ gAlreadyDropped w' = true
            /\ (db w <> None -> name_plain (name_of killer) = true ->
                granted w' = true))).

Definition cfg_chance (f : single) : ConfigMgr :=
  {| opt_Enable := None; opt_NpcEntry := None; opt_Chance := Some f;
     opt_AllowRepeat := None; opt_ResetOnStartup := None |}.

(** The in-memory flag mirrors the persisted one, and the row exists. *)
Definition coherent (w : World) : Prop :=
  db w <> None /\ gAlreadyDropped w = granted w.

(** The guard of the kill handlers without its gate term. *)
Definition kill_candidate (w : World) (killer : option Player)
    (killed : option Creature) (urand : Z -> Z -> Z) : bool :=
  match killer, killed with
  | Some _, Some cr =>
      enable (gConf w)
      && (entry cr =? npcEntry (gConf w))
      && negb (LootHasItem (Some (loot cr)) ITEM_TALISMAN)
      && RollDrop urand (chancePct (gConf w))
  | _, _ => false
  end.

(** The row a kill-phase grant writes, [None] when the server rejects the
    statement. *)
Definition grant_row (killer : option Player) (t : Z) : option Row :=
  let name := name_of killer in
  if is_empty name then
    Some {| dropped := 1; last_drop_time := now_of t; last_killer := None |}
  else
    option_map (fun stored => {| dropped := 1; last_drop_time := now_of t;
                                 last_killer := Some stored |})
      (sent_literal (clean_name name)).

(** The row after an [UPDATE] that sets every column to those of [r];
    [r = None] stands for a rejected statement. *)
Definition write_row (r : option Row) (d : option Row) : option Row :=
  match r with
  | Some r' => option_map (fun _ => r') d
  | None => d
  end.

(** The name the kill-phase statement of an operation carries. *)
Definition kill_name (op : Operation) : string :=
  match op with
  | CallPersistDropped_KillPhase killer _ => name_of killer
  | CallPersistDropped killer _ => name_of killer
  | CallOnPlayerCreatureKill killer _ _ _ => name_of killer
  | CallOnPlayerCreatureKill_single killer _ _ _ => name_of killer
  | _ => EmptyString
  end.

(** No apostrophe and no quotation mark in the string. *)
Fixpoint quote_free (s : string) : bool :=
  match s with
  | EmptyString => true
  | String ch rest => negb (is_quote ch) && quote_free rest
  end.

(** A process that has just started: the globals have their initial values,
    the database is as the previous run left it. *)
Definition fresh_process (d : option Row) : World :=
  {| gConf := default_conf; gAlreadyDropped := false; db := d; effects := [] |}.

(** The effects other than announcements. *)
Fixpoint without_broadcasts (es : list Effect) : list Effect :=
  match es with
  | [] => []
  | SendGlobalMessage _ :: tl => without_broadcasts tl
  | e :: tl => e :: without_broadcasts tl
  end.

(** Two worlds that differ at most in the announcements made. *)
Definition same_but_announcements (w1 w2 : World) : Prop :=
  gConf w1 = gConf w2 /\ gAlreadyDropped w1 = gAlreadyDropped w2
  /\ db w1 = db w2
  /\ without_broadcasts (effects w1) = without_broadcasts (effects w2).

(** A host whose [Loot::AddItem] leaves an item of the requested id in the
    loot. *)
Definition adds_item (host : Host) : Prop :=
  forall it l, LootHasItem (Some (Loot_AddItem host it l)) (lsi_itemid it) = true.

(** A row that fits the columns of the table and holds a name that needs no
    escaping of quotes. *)
Definition row_ok (r : Row) : Prop :=
  (dropped r = 0 \/ dropped r = 1)
  /\ 0 <= last_drop_time r < 2 ^ 64
  /\ forall s, last_killer r = Some s ->
       (1 <= String.length s <= 63)%nat /\ quote_free s = true.

Definition db_ok (w : World) : Prop := forall r, db w = Some r -> row_ok r.

(** The actor column after a write: what it held before, or a value of at
    most 63 bytes with no apostrophe and no quotation mark. *)
Definition actor_written (d d' : option Row) : Prop :=
  forall r', d' = Some r' ->
    (exists r, d = Some r /\ last_killer r' = last_killer r)
    \/ (exists stored, last_killer r' = Some stored
         /\ (String.length stored <= 63)%nat
         /\ quote_free stored = true).

(** The values [urand(1, scale)] can return. *)
Definition draws : list Z := List.map Z.of_nat (seq 1 (Z.to_nat scale)).

(** * Properties *)

(** ** Sanity checks of the embedding *)

Example d100_is_100 : Double.of_Z 100 = Double.d100.
Proof. reflexivity. Qed.

Example d0_5_is_half : Double.mul Double.d0_5 (Double.of_Z 2) = Double.of_Z 1.
Proof. reflexivity. Qed.

Example d1_is_1 : Double.of_Z 1 = Double.d1.
Proof. reflexivity. Qed.

Example f1_to_double : Single.to_double Single.f1 = Double.d1.
Proof. reflexivity. Qed.

Example need_of_1_percent : need_of Double.d1 = 100.
Proof. reflexivity. Qed.

Example round_chance_of_1_percent : round_chance Double.d1 = 100.
Proof. reflexivity. Qed.

Example to_Q_of_half : Double.to_Q Double.d0_5 = (4503599627370496 # 9007199254740992)%Q.
Proof. reflexivity. Qed.

Example default_load :
  load_conf {| opt_Enable := None; opt_NpcEntry := Some 0; opt_Chance := None;
               opt_AllowRepeat := None; opt_ResetOnStartup := None |}
  = default_conf.
Proof. reflexivity. Qed.

(** The scenario of the specification: with chance 100, Alice's kill puts one
    talisman into the corpse and closes the gate; Bob's kill of the same
    corpse, and of another one, changes nothing. *)
Example scenario_two_kills :
  let s1 := run_kills (TwoPhase.OnPlayerCreatureKill sample_host) server_ready
              [kill_by alice 0 1700000000] in
  let s3 := run_kills (TwoPhase.OnPlayerCreatureKill sample_host) s1
              [kill_by bob 0 1700000100; kill_by bob 1 1700000200] in
  insertions (world s1) = 1%nat
  /\ option_map (fun c => List.map itemid (items (loot c))) (nth_error (corpses s1) 0)
     = Some [17011; ITEM_TALISMAN]
  /\ db (world s1) = Some {| dropped := 1; last_drop_time := 1700000000;
                             last_killer := Some "Alice"%string |}
  /\ gAlreadyDropped (world s1) = true
  /\ corpses s3 = corpses s1
  /\ db (world s3) = db (world s1)
  /\ insertions (world s3) = 1%nat.
Proof. vm_compute. repeat split; reflexivity. Qed.

(** ** Binary64 arithmetic on the values a configuration can hold

    The chance option is read as a [float]; its product by 100 is therefore
    exact in binary64, and only the addition of 0.5 can round.  The lemmas
    below follow the executable IEEE-754 specification step by step. *)

(** The bit count of the specification is [Pos.size], hence [Z.log2 + 1]. *)
Lemma digits2_pos_size (p : positive) : digits2_pos p = Pos.size p.
Proof. induction p; simpl; congruence. Qed.

Lemma Zpos_size_log2 (p : positive) : Zpos (Pos.size p) = Z.log2 (Zpos p) + 1.
Proof.
  destruct p; simpl; try reflexivity; rewrite Pos2Z.inj_succ; lia.
Qed.

Lemma Zdigits2_log2 (p : positive) : Zdigits2 (Zpos p) = Z.log2 (Zpos p) + 1.
Proof. simpl. now rewrite digits2_pos_size, Zpos_size_log2. Qed.

Lemma log2_shift (m n : Z) :
  0 < m -> 0 <= n -> Z.log2 (m * 2 ^ n) = Z.log2 m + n.
Proof. intros. rewrite Z.log2_mul_pow2 by lia. lia. Qed.

(** Shifting right a mantissa whose low bits are zero loses nothing: the
    round and sticky bits stay clear. *)
Lemma shr_1_double (m : Z) : 0 < m ->
  shr_1 {| shr_m := m * 2; shr_r := false; shr_s := false |}
  = {| shr_m := m; shr_r := false; shr_s := false |}.
Proof.
  intros H. destruct m as [|q|q]; try lia.
  rewrite Z.mul_comm. reflexivity.
Qed.

Lemma pow2_xO (n : positive) : 2 ^ Zpos n~0 = 2 ^ Zpos n * 2 ^ Zpos n.
Proof.
  replace (Zpos n~0) with (Zpos n + Zpos n) by lia. apply Z.pow_add_r; lia.
Qed.

Lemma pow2_xI (n : positive) : 2 ^ Zpos n~1 = 2 ^ Zpos n * 2 ^ Zpos n * 2.
Proof.
  replace (Zpos n~1) with (Zpos n + Zpos n + 1) by lia.
  rewrite !Z.pow_add_r by lia. reflexivity.
Qed.

Lemma iter_pos_shr_exact (n : positive) : forall m, 0 < m ->
  iter_pos shr_1 n {| shr_m := m * 2 ^ Zpos n; shr_r := false; shr_s := false |}
  = {| shr_m := m; shr_r := false; shr_s := false |}.
Proof.
  induction n as [n IH|n IH|]; intros m Hm; cbn [iter_pos].
  - replace (m * 2 ^ Zpos n~1) with ((m * 2 ^ Zpos n * 2 ^ Zpos n) * 2)
      by (rewrite pow2_xI; ring).
    rewrite shr_1_double by (apply Z.mul_pos_pos; [apply Z.mul_pos_pos|]; lia).
    rewrite IH by (apply Z.mul_pos_pos; lia). now apply IH.
  - replace (m * 2 ^ Zpos n~0) with (m * 2 ^ Zpos n * 2 ^ Zpos n)
      by (rewrite pow2_xO; ring).
    rewrite IH by (apply Z.mul_pos_pos; lia). now apply IH.
  - now apply shr_1_double.
Qed.

(** Whatever the low bits are, the mantissa after [n] shifts is the quotient
    by [2^n]. *)
Lemma shr_1_m (x : shr_record) : 0 <= shr_m x -> shr_m (shr_1 x) = shr_m x / 2.
Proof.
  destruct x as [m r s]. simpl. intros H.
  destruct m as [|[q|q|]|q]; try lia; try reflexivity.
  - simpl. rewrite Pos2Z.inj_xI.
    apply Z.div_unique with (r := 1); lia.
  - simpl. rewrite Pos2Z.inj_xO.
    apply Z.div_unique with (r := 0); lia.
Qed.

Lemma iter_pos_shr_m (n : positive) : forall x, 0 <= shr_m x ->
  shr_m (iter_pos shr_1 n x) = shr_m x / 2 ^ Zpos n.
Proof.
  induction n as [n IH|n IH|]; intros x Hx; cbn [iter_pos].
  - assert (H1 : 0 <= shr_m (shr_1 x)) by (rewrite shr_1_m by lia; apply Z.div_pos; lia).
    assert (H2 : 0 <= shr_m (iter_pos shr_1 n (shr_1 x)))
      by (rewrite IH by lia; apply Z.div_pos; lia).
    rewrite IH, IH, shr_1_m by lia.
    rewrite !Z.div_div by lia. f_equal. rewrite pow2_xI. ring.
  - assert (H2 : 0 <= shr_m (iter_pos shr_1 n x))
      by (rewrite IH by lia; apply Z.div_pos; lia).
    rewrite IH, IH by lia.
    rewrite !Z.div_div by lia. f_equal. rewrite pow2_xO. ring.
  - rewrite shr_1_m by lia. reflexivity.
Qed.

Lemma round_nearest_even_bounds (x : Z) (l : location) :
  x <= round_nearest_even x l <= x + 1.
Proof.
  destruct l as [|[| |]]; simpl; try lia. destruct (Z.even x); lia.
Qed.

Lemma Pos_iter_xO (d : positive) (m : positive) :
  Zpos (Pos.iter xO m d) = Zpos m * 2 ^ Zpos d.
Proof.
  revert m. induction d using Pos.peano_ind; intros m.
  - simpl. lia.
  - rewrite Pos.iter_succ, Pos2Z.inj_xO, IHd, Pos2Z.inj_succ, Z.pow_succ_r by lia.
    ring.
Qed.

Lemma Zdigits2_pos (z : Z) : 0 < z -> Zdigits2 z = Z.log2 z + 1.
Proof. destruct z; try lia. intros _. apply Zdigits2_log2. Qed.

Section Exact.
Variables prec emax : Z.

(** [binary_round_aux] on a canonical mantissa followed by [n] zero bits
    returns that mantissa: nothing is rounded. *)
Lemma BRA_exact (s : bool) (q : positive) (E n : Z) :
  canonical_mantissa prec emax q E = true -> E <= emax - prec -> 0 <= n ->
  binary_round_aux prec emax s (Zpos q * 2 ^ n) (E - n) loc_Exact
  = S754_finite s q E.
Proof.
  intros Hc HE Hn. unfold canonical_mantissa in Hc. apply Z.eqb_eq in Hc.
  assert (Hq : Zdigits2 (Zpos q) + E = Zpos (digits2_pos q) + E) by reflexivity.
  assert (Hd : Zdigits2 (Zpos q * 2 ^ n) + (E - n) = Zpos (digits2_pos q) + E).
  { rewrite Zdigits2_pos by (apply Z.mul_pos_pos; lia).
    rewrite log2_shift by lia. rewrite <- Hq, Zdigits2_log2. lia. }
  unfold binary_round_aux, shr_fexp. rewrite Hd, Hc.
  replace (E - (E - n)) with n by lia.
  assert (Hshr : shr (shr_record_of_loc (Zpos q * 2 ^ n) loc_Exact) (E - n) n
                 = ({| shr_m := Zpos q; shr_r := false; shr_s := false |}, E)).
  { destruct n as [|p|p]; [| |lia]; cbn [shr shr_record_of_loc].
    - rewrite Z.mul_1_r, Z.sub_0_r. reflexivity.
    - rewrite iter_pos_shr_exact by lia. f_equal. lia. }
  rewrite Hshr. cbn [shr_m loc_of_shr_record round_nearest_even].
  rewrite Hq, Hc, Z.sub_diag. cbn [shr shr_record_of_loc shr_m].
  apply Z.leb_le in HE. now rewrite HE.
Qed.

(** [binary_round] returns the canonical representation when there is one. *)
Lemma BR_exact (s : bool) (M : positive) (e : Z) (q : positive) (E : Z) :
  canonical_mantissa prec emax q E = true -> E <= emax - prec ->
  (e <= E /\ Zpos M = Zpos q * 2 ^ (E - e))
  \/ (E <= e /\ Zpos q = Zpos M * 2 ^ (e - E)) ->
  binary_round prec emax s M e = S754_finite s q E.
Proof.
  intros Hc HE Hv. pose proof Hc as Hc'.
  unfold canonical_mantissa in Hc'. apply Z.eqb_eq in Hc'.
  assert (Hd : Zpos (digits2_pos M) + e = Zpos (digits2_pos q) + E).
  { change (Zdigits2 (Zpos M) + e = Zdigits2 (Zpos q) + E).
    destruct Hv as [[Hle Hv]|[Hle Hv]]; rewrite Hv.
    - rewrite (Zdigits2_pos (Zpos q * _)) by (apply Z.mul_pos_pos; lia).
      rewrite log2_shift, Zdigits2_log2 by lia. lia.
    - rewrite (Zdigits2_pos (Zpos M * _)) by (apply Z.mul_pos_pos; lia).
      rewrite log2_shift, Zdigits2_log2 by lia. lia. }
  unfold binary_round. rewrite Hd, Hc'.
  destruct Hv as [[Hle Hv]|[Hle Hv]].
  - assert (Hsh : shl_align M e E = (M, e)).
    { unfold shl_align. destruct (E - e) eqn:Hs; try reflexivity. lia. }
    rewrite Hsh.
    replace (binary_round_aux prec emax s (Zpos M) e loc_Exact)
      with (binary_round_aux prec emax s (Zpos q * 2 ^ (E - e)) (E - (E - e))
              loc_Exact)
      by (rewrite Hv; f_equal; lia).
    apply BRA_exact; try assumption; lia.
  - assert (Hsh : exists M', shl_align M e E = (M', E) /\ Zpos M' = Zpos q).
    { unfold shl_align. destruct (E - e) as [|d|d] eqn:Hs.
      - exists M. replace e with E in * by lia. split; [reflexivity|].
        rewrite Hv, Z.sub_diag. lia.
      - lia.
      - exists (Pos.iter xO M d). split; [reflexivity|].
        rewrite Pos_iter_xO, Hv. f_equal. f_equal. lia. }
    destruct Hsh as [M' [-> HM']].
    replace (binary_round_aux prec emax s (Zpos M') E loc_Exact)
      with (binary_round_aux prec emax s (Zpos q * 2 ^ 0) (E - 0) loc_Exact)
      by (rewrite HM'; f_equal; lia).
    apply BRA_exact; try assumption; lia.
Qed.
End Exact.

Lemma pow2_pos (n : Z) : 0 <= n -> 0 < 2 ^ n.
Proof. intros. apply Z.pow_pos_nonneg; lia. Qed.

Lemma size_lt_pow2 (N : positive) (k : Z) :
  0 <= k -> Zpos N < 2 ^ k -> Zpos (Pos.size N) <= k.
Proof.
  intros Hk H. rewrite Zpos_size_log2.
  assert (Z.log2 (Zpos N) < k) by (apply Z.log2_lt_pow2; lia). lia.
Qed.

Lemma fexp64 (x : Z) : -1021 <= x -> fexp 53 1024 x = x - 53.
Proof. intros. unfold fexp, emin. lia. Qed.

Section Norm.
Variables (N : positive) (a : Z).
Let u := 53 - Zpos (Pos.size N).
Hypothesis size_N : Zpos (Pos.size N) <= 53.
Hypothesis a_lo : -1074 <= a - u.
Hypothesis a_hi : a - u <= 971.

Lemma norm64_mantissa : Zpos (Z.to_pos (Zpos N * 2 ^ u)) = Zpos N * 2 ^ u.
Proof.
  apply Z2Pos.id. apply Z.mul_pos_pos; [lia | apply pow2_pos; unfold u; lia].
Qed.

Lemma norm64_canonical :
  canonical_mantissa 53 1024 (Z.to_pos (Zpos N * 2 ^ u)) (a - u) = true.
Proof.
  unfold canonical_mantissa. apply Z.eqb_eq.
  change (Zpos (digits2_pos (Z.to_pos (Zpos N * 2 ^ u))))
    with (Zdigits2 (Zpos (Z.to_pos (Zpos N * 2 ^ u)))).
  rewrite Zdigits2_log2, norm64_mantissa, log2_shift by (unfold u; lia).
  pose proof (Zpos_size_log2 N). rewrite fexp64; unfold u in *; lia.
Qed.

(** [binary_round] of a mantissa with trailing zeros. *)
Lemma BR_norm64 (s : bool) (M : positive) (e : Z) :
  e <= a -> Zpos M = Zpos N * 2 ^ (a - e) ->
  binary_round 53 1024 s M e = Double.norm64 s N a.
Proof.
  intros He HM. unfold Double.norm64. fold u.
  apply BR_exact; [apply norm64_canonical | lia |].
  rewrite norm64_mantissa.
  destruct (Z_le_gt_dec e (a - u)) as [H|H].
  - left. split; [assumption|]. rewrite HM, <- Z.mul_assoc, <- Z.pow_add_r
      by (unfold u; lia). do 2 f_equal. lia.
  - right. split; [lia|]. rewrite HM, <- Z.mul_assoc, <- Z.pow_add_r
      by (unfold u; lia). do 2 f_equal. lia.
Qed.

Lemma BRA_norm64 (s : bool) (M : positive) (e : Z) :
  e <= a - u -> Zpos M = Zpos N * 2 ^ (a - e) ->
  binary_round_aux 53 1024 s (Zpos M) e loc_Exact = Double.norm64 s N a.
Proof.
  intros He HM. unfold Double.norm64. fold u.
  replace (binary_round_aux 53 1024 s (Zpos M) e loc_Exact)
    with (binary_round_aux 53 1024 s
            (Zpos (Z.to_pos (Zpos N * 2 ^ u)) * 2 ^ (a - u - e))
            (a - u - (a - u - e)) loc_Exact).
  - apply BRA_exact; [apply norm64_canonical | lia | lia].
  - f_equal; [|lia]. rewrite norm64_mantissa, HM, <- Z.mul_assoc, <- Z.pow_add_r
      by (unfold u; lia). do 2 f_equal. lia.
Qed.

Lemma trunc_shiftr : a <= -1 ->
  match a - u with
  | Zneg p => Z.shiftr (Zpos (Z.to_pos (Zpos N * 2 ^ u))) (Zpos p)
  | _ => Z.shiftl (Zpos (Z.to_pos (Zpos N * 2 ^ u))) (a - u)
  end = Zpos N / 2 ^ (- a).
Proof.
  intros Ha. destruct (a - u) as [|p|p] eqn:E; try (unfold u in *; lia).
  rewrite norm64_mantissa, Z.shiftr_div_pow2 by lia.
  replace (Zpos p) with (u + - a) by lia.
  rewrite Z.pow_add_r by (unfold u; lia).
  rewrite (Z.mul_comm (2 ^ u)).
  apply Z.div_mul_cancel_r; apply Z.neq_sym, Z.lt_neq, pow2_pos; unfold u; lia.
Qed.
End Norm.

Lemma size_mono (p q : positive) :
  (p <= q)%positive -> Zpos (Pos.size p) <= Zpos (Pos.size q).
Proof.
  intros H. rewrite !Zpos_size_log2.
  assert (Z.log2 (Zpos p) <= Z.log2 (Zpos q)) by (apply Z.log2_le_mono; lia). lia.
Qed.

(** Binary32 values: at most 24 bits of mantissa, exponent from -149. *)
Lemma single_valid_bounds (s : bool) (m : positive) (e : Z) :
  Single.valid (S754_finite s m e) = true ->
  Zpos (Pos.size m) <= 24 /\ -149 <= e <= 104
  /\ (Zpos (Pos.size m) = 24 \/ e = -149).
Proof.
  unfold Single.valid, valid_binary, bounded, canonical_mantissa.
  rewrite andb_true_iff, Z.eqb_eq, Z.leb_le, digits2_pos_size.
  unfold fexp, emin, Single.prec, Single.emax. lia.
Qed.

(** The conversion to [double] keeps the value. *)
Lemma to_double_norm64 (s : bool) (m : positive) (e : Z) :
  Single.valid (S754_finite s m e) = true ->
  Single.to_double (S754_finite s m e) = Double.norm64 s m e.
Proof.
  intros Hv. destruct (single_valid_bounds s m e Hv) as [Hs [He _]].
  unfold Single.to_double, Double.prec, Double.emax.
  apply BR_norm64; try lia. rewrite Z.sub_diag. lia.
Qed.

Lemma d100_norm64 : Double.d100 = Double.norm64 false 25 2.
Proof. reflexivity. Qed.

Lemma d0_5_norm64 : Double.d0_5 = Double.norm64 false 1 (-1).
Proof. reflexivity. Qed.

(** The product by 100.0 is exact as long as [25 * N] fits in 53 bits. *)
Lemma mul_d100_exact (N : positive) (a : Z) :
  Zpos N * 25 < 2 ^ 53 ->
  -1074 <= a + 2 - (53 - Zpos (Pos.size (N * 25))) <= 971 ->
  Double.mul (Double.norm64 false N a) Double.d100 = Double.norm64 false (N * 25) (a + 2).
Proof.
  intros HN Hr.
  assert (Hs25 : Zpos (Pos.size (N * 25)) <= 53)
    by (apply size_lt_pow2; [lia | rewrite Pos2Z.inj_mul; exact HN]).
  assert (Hs : Zpos (Pos.size N) <= Zpos (Pos.size (N * 25)))
    by (apply size_mono; lia).
  unfold Double.mul, Double.d100, Double.norm64 at 1.
  cbn [SFmul xorb].
  apply BRA_norm64; try lia.
  rewrite Pos2Z.inj_mul, norm64_mantissa by lia.
  change (Zpos 7036874417766400) with (25 * 2 ^ 48).
  replace (a + 2 - (a - (53 - Zpos (Pos.size N)) + -46))
    with ((53 - Zpos (Pos.size N)) + 48) by lia.
  rewrite Z.pow_add_r by lia. rewrite Pos2Z.inj_mul. ring.
Qed.

Lemma shl_align_fst (M : positive) (e ez : Z) :
  ez <= e -> Zpos (fst (shl_align M e ez)) = Zpos M * 2 ^ (e - ez).
Proof.
  intros H. unfold shl_align. destruct (ez - e) as [|d|d] eqn:E; cbn [fst].
  - replace (e - ez) with 0 by lia. lia.
  - lia.
  - rewrite Pos_iter_xO. do 2 f_equal. lia.
Qed.

(** [SFadd] aligns both operands on the smaller exponent, adds the
    mantissas and rounds the sum once. *)
Lemma add_half_sum (N : positive) (a : Z) :
  Zpos (Pos.size N) <= 53 -> a <= -1 ->
  let u := 53 - Zpos (Pos.size N) in
  let ez := Z.min (a - u) (-53) in
  exists Sg : positive,
    Double.add (Double.norm64 false N a) Double.d0_5
    = binary_round 53 1024 false Sg ez
    /\ Zpos Sg = Zpos N * 2 ^ (a - ez) + 2 ^ (-1 - ez).
Proof.
  intros Hs Ha u ez.
  unfold Double.add, Double.d0_5, Double.norm64. fold u.
  cbn [SFadd cond_Zopp]. fold ez.
  exists (fst (shl_align (Z.to_pos (Zpos N * 2 ^ u)) (a - u) ez)
          + fst (shl_align 4503599627370496 (-53) ez))%positive.
  split; [reflexivity|].
  rewrite Pos2Z.inj_add, !shl_align_fst by (unfold ez; lia).
  rewrite norm64_mantissa by lia. fold u.
  rewrite <- Z.mul_assoc, <- Z.pow_add_r by (unfold ez, u; lia).
  change (Zpos 4503599627370496) with (2 ^ 52).
  rewrite <- Z.pow_add_r by (unfold ez, u; lia).
  replace (u + (a - u - ez)) with (a - ez) by lia.
  replace (52 + (-53 - ez)) with (-1 - ez) by lia.
  reflexivity.
Qed.

(** The addition of 0.5 is exact when the sum fits in 53 bits. *)
Lemma add_half_exact (N : positive) (a : Z) :
  a <= -1 -> -1021 <= a ->
  Zpos N + 2 ^ (-1 - a) < 2 ^ 53 ->
  Double.add (Double.norm64 false N a) Double.d0_5
  = Double.norm64 false (Z.to_pos (Zpos N + 2 ^ (-1 - a))) a.
Proof.
  intros Ha Hlo HS.
  assert (Hp : 0 < 2 ^ (-1 - a)) by (apply pow2_pos; lia).
  assert (HN : Zpos (Pos.size N) <= 53) by (apply size_lt_pow2; lia).
  destruct (add_half_sum N a HN Ha) as [Sg [-> HSg]].
  set (u := 53 - Zpos (Pos.size N)) in *.
  set (ez := Z.min (a - u) (-53)) in *.
  set (S := Z.to_pos (Zpos N + 2 ^ (-1 - a))).
  assert (HSid : Zpos S = Zpos N + 2 ^ (-1 - a)) by (apply Z2Pos.id; lia).
  assert (HsS : Zpos (Pos.size S) <= 53) by (apply size_lt_pow2; lia).
  assert (H1 : 1 <= Zpos (Pos.size S)) by lia.
  apply BR_norm64; try lia.
  rewrite HSg, HSid, Z.mul_add_distr_r, <- Z.pow_add_r by (unfold ez, u; lia).
  replace (-1 - a + (a - ez)) with (-1 - ez) by lia. reflexivity.
Qed.

Lemma log2_eq (x k : Z) : 0 <= k -> 2 ^ k <= x < 2 ^ (k + 1) -> Z.log2 x = k.
Proof. intros. apply Z.log2_unique; assumption. Qed.

(** Rounding a value of [1/2, 1) whose quotient stays clear of [2^53]. *)
Lemma BRA_below_one (M : positive) (n : Z) :
  1 <= n -> 2 ^ (52 + n) <= Zpos M -> Zpos M / 2 ^ n + 1 < 2 ^ 53 ->
  exists r, binary_round_aux 53 1024 false (Zpos M) (-53 - n) loc_Exact
            = S754_finite false r (-53)
            /\ Zpos r < 2 ^ 53.
Proof.
  intros Hn Hlo Hhi.
  assert (Hpn : 0 < 2 ^ n) by (apply pow2_pos; lia).
  assert (Hq : 2 ^ 52 <= Zpos M / 2 ^ n).
  { apply Z.div_le_lower_bound; [lia|]. rewrite <- Z.pow_add_r by lia.
    now rewrite Z.add_comm. }
  assert (HM : Zpos M < 2 ^ (53 + n)).
  { rewrite Z.pow_add_r by lia.
    pose proof (Z.div_mod (Zpos M) (2 ^ n) ltac:(lia)).
    pose proof (Z.mod_pos_bound (Zpos M) (2 ^ n) Hpn). nia. }
  assert (Hd : Zdigits2 (Zpos M) = 53 + n).
  { rewrite Zdigits2_log2.
    rewrite (log2_eq (Zpos M) (52 + n)); [lia | lia |].
    split; [assumption|]. now replace (52 + n + 1) with (53 + n) by lia. }
  unfold binary_round_aux, shr_fexp. rewrite Hd.
  replace (53 + n + (-53 - n)) with 0 by lia.
  change (fexp 53 1024 0) with (-53).
  replace (-53 - (-53 - n)) with n by lia.
  destruct n as [|p|p]; try lia.
  cbn [shr shr_record_of_loc].
  set (x := iter_pos shr_1 p {| shr_m := Zpos M; shr_r := false; shr_s := false |}).
  assert (Hx : shr_m x = Zpos M / 2 ^ Zpos p)
    by (unfold x; rewrite iter_pos_shr_m; cbn [shr_m]; [reflexivity | lia]).
  pose proof (round_nearest_even_bounds (shr_m x) (loc_of_shr_record x)) as Hr.
  set (r := round_nearest_even (shr_m x) (loc_of_shr_record x)) in *.
  assert (Hdr : Zdigits2 r = 53).
  { rewrite Zdigits2_pos by lia. rewrite (log2_eq r 52); lia. }
  rewrite Hdr. replace (-53 - Zpos p + Zpos p) with (-53) by lia.
  change (fexp 53 1024 (53 + -53) - -53) with 0.
  cbn [shr shr_record_of_loc shr_m].
  destruct r as [|r'|r'] eqn:Er; try lia.
  exists r'. split; [reflexivity | lia].
Qed.

(** Below that, the product is so small that the sum, though rounded, stays
    under 1.0. *)
Lemma add_half_below_one (N : positive) (a : Z) :
  a <= -54 -> Zpos N < 2 ^ 52 ->
  exists r, Double.add (Double.norm64 false N a) Double.d0_5
            = S754_finite false r (-53)
            /\ Zpos r < 2 ^ 53.
Proof.
  intros Ha HN.
  assert (Hs : Zpos (Pos.size N) <= 53) by (apply size_lt_pow2; lia).
  destruct (add_half_sum N a Hs ltac:(lia)) as [Sg [-> HSg]].
  set (u := 53 - Zpos (Pos.size N)) in *.
  assert (Hu : 0 <= u) by (unfold u; lia).
  assert (Hez : Z.min (a - u) (-53) = a - u) by lia.
  rewrite Hez in *. clear Hez.
  set (n := -53 - (a - u)).
  assert (Hn : 1 <= n) by (unfold n; lia).
  assert (Hpn : 0 < 2 ^ n) by (apply pow2_pos; lia).
  assert (HSg' : Zpos Sg = Zpos N * 2 ^ u + 2 ^ 52 * 2 ^ n).
  { rewrite HSg, <- Z.pow_add_r by lia.
    replace (a - (a - u)) with u by lia.
    replace (-1 - (a - u)) with (52 + n) by (unfold n; lia). reflexivity. }
  assert (Hsmall : Zpos N * 2 ^ u < 2 ^ 51 * 2 ^ n).
  { replace n with (u + (-53 - a)) by (unfold n; lia).
    rewrite Z.pow_add_r by lia.
    assert (0 < 2 ^ u) by (apply pow2_pos; lia).
    assert (2 ^ 1 <= 2 ^ (-53 - a)) by (apply Z.pow_le_mono_r; lia).
    change (2 ^ 1) with 2 in *. nia. }
  assert (Hdig : Zdigits2 (Zpos Sg) + (a - u) = 0).
  { rewrite Zdigits2_log2.
    rewrite (log2_eq (Zpos Sg) (52 + n)); [unfold n; lia | lia |].
    rewrite HSg'. replace (52 + n + 1) with (53 + n) by lia.
    rewrite !Z.pow_add_r by lia. nia. }
  unfold binary_round.
  change (Zpos (digits2_pos Sg)) with (Zdigits2 (Zpos Sg)). rewrite Hdig.
  change (fexp 53 1024 0) with (-53).
  assert (Hsh : shl_align Sg (a - u) (-53) = (Sg, a - u)).
  { unfold shl_align. destruct (-53 - (a - u)) eqn:E; try reflexivity. lia. }
  rewrite Hsh. replace (a - u) with (-53 - n) by (unfold n; lia).
  apply BRA_below_one; try lia.
  - rewrite HSg', Z.pow_add_r by lia. nia.
  - rewrite HSg'. rewrite Z.div_add by lia.
    assert (Zpos N * 2 ^ u / 2 ^ n < 2 ^ 51)
      by (apply Z.div_lt_upper_bound; lia).
    lia.
Qed.

Lemma size_bound (N : positive) : Zpos N < 2 ^ Zpos (Pos.size N).
Proof.
  pose proof (Z.log2_spec (Zpos N) ltac:(lia)) as [_ H].
  rewrite Zpos_size_log2. exact H.
Qed.

Lemma single_mantissa_bound (s : bool) (m : positive) (e : Z) :
  Single.valid (S754_finite s m e) = true -> Zpos m < 2 ^ 24.
Proof.
  intros Hv. destruct (single_valid_bounds s m e Hv) as [Hs _].
  pose proof (size_bound m).
  assert (2 ^ Zpos (Pos.size m) <= 2 ^ 24) by (apply Z.pow_le_mono_r; lia).
  lia.
Qed.

(** [round_chance] as an integer quotient. *)
Lemma round_chance_norm64 (N : positive) (a : Z) :
  Zpos (Pos.size N) <= 53 -> a <= -1 ->
  round_chance (Double.norm64 false N a) = (200 * Zpos N + 2 ^ (- a)) / 2 ^ (1 - a).
Proof.
  intros Hs Ha. unfold round_chance, Double.norm64, Double.to_Q.
  set (u := 53 - Zpos (Pos.size N)).
  destruct (a - u) as [|p|p] eqn:E; try (unfold u in *; lia).
  unfold Qfloor, Qplus, Qmult. cbn [Qnum Qden].
  assert (Hm : Zpos (Z.to_pos (Zpos N * 2 ^ u)) = Zpos N * 2 ^ u)
    by (apply norm64_mantissa; exact Hs).
  rewrite !Pos2Z.inj_mul, Pos2Z.inj_pow, Hm.
  assert (Hu : 0 <= u) by (unfold u; lia).
  assert (Hp : Zpos p = u + - a) by lia.
  rewrite Hp, Z.pow_add_r by lia.
  replace (1 - a) with (1 + - a) by lia. rewrite (Z.pow_add_r 2 1) by lia.
  change (2 ^ 1) with 2.
  assert (0 < 2 ^ u) by (apply pow2_pos; lia).
  assert (0 < 2 ^ (- a)) by (apply pow2_pos; lia).
  replace (Zpos N * 2 ^ u * 100 * 2 + 1 * (2 ^ u * 2 ^ (- a) * 1))
    with (2 ^ u * (200 * Zpos N + 2 ^ (- a))) by ring.
  replace (2 ^ u * 2 ^ (- a) * 1 * 2) with (2 ^ u * (2 * 2 ^ (- a))) by ring.
  apply Z.div_mul_cancel_l; lia.
Qed.

(** The threshold computed by the source is the exact rounding, for every
    binary32 value below 128. *)
Lemma need_of_norm64 (m : positive) (e : Z) :
  Zpos m < 2 ^ 24 -> -149 <= e <= -17 ->
  need_of (Double.norm64 false m e) = (200 * Zpos m + 2 ^ (- e)) / 2 ^ (1 - e).
Proof.
  intros Hm He. unfold need_of.
  assert (H25 : Zpos (m * 25) < 2 ^ 29) by (rewrite Pos2Z.inj_mul; lia).
  assert (Hs25 : Zpos (Pos.size (m * 25)) <= 29) by (apply size_lt_pow2; lia).
  assert (Hpe : 2 ^ 17 <= 2 ^ (- e)) by (apply Z.pow_le_mono_r; lia).
  rewrite mul_d100_exact by lia.
  destruct (Z_le_gt_dec (-53) (e + 2)) as [Hc|Hc].
  - assert (Hp : 0 < 2 ^ (-1 - (e + 2))) by (apply pow2_pos; lia).
    assert (Hp52 : 2 ^ (-1 - (e + 2)) <= 2 ^ 52) by (apply Z.pow_le_mono_r; lia).
    rewrite add_half_exact by lia.
    set (S := Z.to_pos (Zpos (m * 25) + 2 ^ (-1 - (e + 2)))).
    assert (HS : Zpos S = Zpos (m * 25) + 2 ^ (-1 - (e + 2)))
      by (apply Z2Pos.id; lia).
    assert (HsS : Zpos (Pos.size S) <= 53) by (apply size_lt_pow2; lia).
    unfold Double.to_uint32, Double.trunc, Double.norm64.
    rewrite (trunc_shiftr S (e + 2) HsS) by lia.
    rewrite HS, Pos2Z.inj_mul.
    assert (Hq : (Zpos m * 25 + 2 ^ (-1 - (e + 2))) / 2 ^ (- (e + 2))
                 = (200 * Zpos m + 2 ^ (- e)) / 2 ^ (1 - e)).
    { replace (- e) with (3 + (-1 - (e + 2))) by lia.
      replace (1 - e) with (3 + - (e + 2)) by lia.
      rewrite !(Z.pow_add_r 2 3) by lia. change (2 ^ 3) with 8.
      replace (200 * Zpos m + 8 * 2 ^ (-1 - (e + 2)))
        with (8 * (Zpos m * 25 + 2 ^ (-1 - (e + 2)))) by ring.
      assert (0 < 2 ^ (- (e + 2))) by (apply pow2_pos; lia).
      symmetry. apply Z.div_mul_cancel_l; lia. }
    rewrite Hq. apply Z.mod_small. split.
    + apply Z.div_pos; [lia | apply pow2_pos; lia].
    + apply Z.div_lt_upper_bound; [apply pow2_pos; lia|].
      replace (1 - e) with (1 + - e) by lia. rewrite Z.pow_add_r by lia.
      change (2 ^ 1) with 2. change (2 ^ 32) with 4294967296. lia.
  - destruct (add_half_below_one (m * 25) (e + 2)) as [r [-> Hr]]; try lia.
    unfold Double.to_uint32, Double.trunc.
    rewrite Z.shiftr_div_pow2 by lia.
    rewrite (Z.div_small (Zpos r)) by lia.
    symmetry. rewrite Z.mod_0_l by lia.
    apply Z.div_small.
    assert (2 ^ 56 <= 2 ^ (- e)) by (apply Z.pow_le_mono_r; lia).
    replace (1 - e) with (1 + - e) by lia. rewrite Z.pow_add_r by lia.
    change (2 ^ 1) with 2. lia.
Qed.

(** Comparisons of positive finite values. *)
Lemma SFltb_finite (q : positive) (E : Z) (q' : positive) (E' : Z) :
  SFltb (S754_finite false q E) (S754_finite false q' E') = true ->
  E < E' \/ (E = E' /\ Zpos q < Zpos q').
Proof.
  unfold SFltb, SFcompare.
  destruct (Z.compare_spec E E') as [Heq|Hlt|Hgt]; try discriminate.
  - fold (Pos.compare q q').
    destruct (Pos.compare_spec q q'); try discriminate. intros _. right. lia.
  - intros _. now left.
Qed.

Lemma norm64_single_exponent (m : positive) (e : Z) :
  Single.valid (S754_finite false m e) = true ->
  forall u, u = 53 - Zpos (Pos.size m) ->
  29 <= u /\ (u = 29 \/ e = -149) /\ Zpos (Z.to_pos (Zpos m * 2 ^ u)) = Zpos m * 2 ^ u.
Proof.
  intros Hv u ->. destruct (single_valid_bounds false m e Hv) as [Hs [He Hn]].
  split; [lia|]. split; [lia|]. apply norm64_mantissa. lia.
Qed.

Lemma below_100_exponent (m : positive) (e : Z) :
  Single.valid (S754_finite false m e) = true ->
  Double.ltb (Double.norm64 false m e) Double.d100 = true ->
  e <= -17.
Proof.
  intros Hv Hlt.
  destruct (norm64_single_exponent m e Hv _ eq_refl) as [Hu [Hn Hm]].
  unfold Double.ltb, Double.d100, Double.norm64 in Hlt.
  apply SFltb_finite in Hlt. lia.
Qed.

Lemma below_0_005_value (m : positive) (e : Z) :
  Single.valid (S754_finite false m e) = true ->
  Double.ltb (Double.norm64 false m e) Double.d0_005 = true ->
  e <= -31 /\ 200 * Zpos m < 2 ^ (- e).
Proof.
  intros Hv Hlt.
  destruct (norm64_single_exponent m e Hv _ eq_refl) as [Hu [Hn Hm]].
  pose proof (single_mantissa_bound false m e Hv) as Hb.
  unfold Double.ltb, Double.d0_005, Double.norm64 in Hlt.
  apply SFltb_finite in Hlt. rewrite Hm in Hlt.
  set (u := 53 - Zpos (Pos.size m)) in *.
  assert (He : e <= -31) by lia. split; [exact He|].
  destruct (Z.eq_dec e (-31)) as [->|Hne].
  - assert (u = 29) by lia. replace u with 29 in * by lia.
    change (2 ^ 29) with 536870912 in Hlt.
    change (2 ^ (- (-31))) with 2147483648. lia.
  - assert (2 ^ 32 <= 2 ^ (- e)) by (apply Z.pow_le_mono_r; lia).
    change (2 ^ 24) with 16777216 in Hb.
    change (2 ^ 32) with 4294967296 in *. lia.
Qed.

(** ** Elementary facts *)

Lemma insertions_emit (e : Effect) (w : World) :
  insertions (emit e w)
  = if is_talisman_insert e then S (insertions w) else insertions w.
Proof.
  unfold insertions, emit; simpl. destruct (is_talisman_insert e); reflexivity.
Qed.

Lemma sql_update_db (f : Row -> Row) (w : World) :
  db (sql_update f w) = option_map f (db w).
Proof. reflexivity. Qed.

Lemma PersistDropped_same (killer : option Player) (t : Z) (w : World) :
  SinglePhase.PersistDropped killer t w = PersistDropped_KillPhase killer t w.
Proof. reflexivity. Qed.

(** *** Reading a literal *)

Lemma length_append (a b : string) :
  String.length (a ++ b) = (String.length a + String.length b)%nat.
Proof. induction a as [|c a IH]; simpl; [reflexivity | now rewrite IH]. Qed.

Lemma quote_free_append (a b : string) :
  quote_free (a ++ b) = (quote_free a && quote_free b)%bool.
Proof.
  induction a as [|c a IH]; simpl; [reflexivity|].
  now rewrite IH, Bool.andb_assoc.
Qed.

Lemma unescape_length (c : ascii) :
  (1 <= String.length (unescape c) <= 2)%nat.
Proof.
  unfold unescape.
  repeat match goal with
         | |- context [if ?b then _ else _] => destruct b
         end; simpl; lia.
Qed.

Lemma unescape_quote_free (c : ascii) :
  is_quote c = false -> quote_free (unescape c) = true.
Proof.
  intros Hc. unfold unescape.
  repeat match goal with
         | |- context [if ?b then _ else _] => destruct b
         end; try reflexivity; simpl; now rewrite Hc.
Qed.

Lemma read_literal_plain (s : string) :
  has_backslash s = false -> read_literal s = Some s.
Proof.
  induction s as [|ch rest IH]; simpl; [reflexivity|].
  intros H. apply Bool.orb_false_iff in H. destruct H as [Hc Hr].
  now rewrite Hc, (IH Hr).
Qed.

Lemma plain_no_nul_no_backslash (s : string) :
  plain s = true -> has_nul s = false /\ has_backslash s = false.
Proof.
  induction s as [|ch rest IH]; simpl; [now split|].
  unfold plain_byte. intros H.
  apply Bool.andb_true_iff in H. destruct H as [H Hr].
  apply Bool.andb_true_iff in H. destruct H as [H _].
  apply Bool.andb_true_iff in H. destruct H as [Hn Hb].
  apply Bool.negb_true_iff in Hn, Hb. destruct (IH Hr) as [-> ->].
  now rewrite Hn, Hb.
Qed.

Lemma sent_literal_plain (s : string) :
  plain s = true -> sent_literal s = Some s.
Proof.
  intros H. destruct (plain_no_nul_no_backslash s H) as [Hn Hb].
  unfold sent_literal. rewrite Hn. now apply read_literal_plain.
Qed.

(** The value read is no longer than the text, is not empty unless the text
    is, and holds no apostrophe or quotation mark unless the text does. *)
Lemma read_literal_bounds (n : nat) :
  forall s v, (String.length s <= n)%nat -> read_literal s = Some v ->
    (String.length v <= String.length s)%nat
    /\ (is_empty s = false -> is_empty v = false)
    /\ (quote_free s = true -> quote_free v = true).
Proof.
  induction n as [|n IH]; intros s v Hn H.
  - destruct s; simpl in Hn; [|lia]. simpl in H. injection H as <-.
    repeat split; auto.
  - destruct s as [|ch rest].
    { simpl in H. injection H as <-. repeat split; auto. }
    simpl in H. simpl in Hn.
    destruct (Ascii.eqb ch backslash) eqn:E.
    + destruct rest as [|c rest']; [discriminate|].
      destruct (read_literal rest') as [v'|] eqn:Hv; [|discriminate].
      simpl in H. injection H as <-.
      destruct (IH rest' v') as (Hl & _ & Hq);
        [simpl in Hn; lia | exact Hv |].
      pose proof (unescape_length c) as Hu.
      split; [|split].
      * rewrite length_append. simpl. lia.
      * intros _. destruct (unescape c) as [|x y] eqn:Eu; [simpl in Hu; lia|].
        reflexivity.
      * cbn [quote_free]. intros Hqf.
        apply Bool.andb_true_iff in Hqf. destruct Hqf as [_ Hqf].
        apply Bool.andb_true_iff in Hqf. destruct Hqf as [Hc Hrest].
        rewrite quote_free_append, (Hq Hrest), Bool.andb_true_r.
        apply unescape_quote_free. now apply Bool.negb_true_iff.
    + destruct (read_literal rest) as [v'|] eqn:Hv; [|discriminate].
      simpl in H. injection H as <-.
      destruct (IH rest v') as (Hl & _ & Hq); [lia | exact Hv |].
      split; [|split].
      * simpl. lia.
      * reflexivity.
      * cbn [quote_free]. intros Hqf.
        apply Bool.andb_true_iff in Hqf. destruct Hqf as [Hc Hrest].
        now rewrite Hc, (Hq Hrest).
Qed.

Lemma sent_literal_bounds (s v : string) :
  sent_literal s = Some v ->
  (String.length v <= String.length s)%nat
  /\ (is_empty s = false -> is_empty v = false)
  /\ (quote_free s = true -> quote_free v = true).
Proof.
  unfold sent_literal. destruct (has_nul s); [discriminate|].
  now apply (read_literal_bounds (String.length s)).
Qed.

Lemma sql_update_named_frame (text : string) (f : string -> Row -> Row)
    (w : World) :
  let w' := sql_update_named text f w in
  gConf w' = gConf w /\ effects w' = effects w
  /\ gAlreadyDropped w' = gAlreadyDropped w
  /\ db w' = match sent_literal text with
             | Some stored => option_map (f stored) (db w)
             | None => db w
             end.
Proof.
  unfold sql_update_named. destruct (sent_literal text); repeat split.
Qed.

(** What [PersistDropped_KillPhase] leaves in the world. *)
Lemma PersistDropped_KillPhase_spec (killer : option Player) (t : Z) (w : World) :
  let w' := PersistDropped_KillPhase killer t w in
  gConf w' = gConf w /\ effects w' = effects w
  /\ (allowRepeat (gConf w) = true -> w' = w)
  /\ (allowRepeat (gConf w) = false ->
      gAlreadyDropped w' = true
      /\ db w' = write_row (grant_row killer t) (db w)).
Proof.
  unfold PersistDropped_KillPhase, grant_row.
  destruct (allowRepeat (gConf w)); cbn zeta.
  - repeat split; intros; congruence.
  - destruct (is_empty (name_of killer)).
    + repeat split; intros; try reflexivity; try discriminate.
    + destruct (sql_update_named_frame (clean_name (name_of killer))
                  (fun stored _ => {| dropped := 1; last_drop_time := now_of t;
                                      last_killer := Some stored |}) w)
        as (Hc & He & _ & Hd).
      cbn [gConf effects gAlreadyDropped db store_dropped].
      repeat split; intros; try assumption; try discriminate.
      rewrite Hd. now destruct (sent_literal (clean_name (name_of killer))).
Qed.

(** What [PersistDropped_LootPhase] leaves in the world. *)
Lemma PersistDropped_LootPhase_spec (looter : option Player) (t : Z) (w : World) :
  let w' := PersistDropped_LootPhase looter t w in
  gConf w' = gConf w /\ effects w' = effects w
  /\ gAlreadyDropped w' = gAlreadyDropped w
  /\ db w' =
     if (allowRepeat (gConf w) || is_empty (name_of looter))%bool then db w
     else match sent_literal (clean_name (name_of looter)) with
          | Some stored =>
              option_map
                (fun r => {| dropped := dropped r; last_drop_time := now_of t;
                             last_killer := Some stored |})
                (db w)
          | None => db w
          end.
Proof.
  unfold PersistDropped_LootPhase.
  destruct (allowRepeat (gConf w)); cbn zeta; [repeat split|].
  destruct (is_empty (name_of looter)); [repeat split|].
  apply sql_update_named_frame.
Qed.

(** ** The kill handlers, case by case *)

(** Case split on one guard of a handler, closing the branches it decides. *)
Ltac on_guard b :=
  destruct b; cbn [negb andb] in *;
  try discriminate; try reflexivity.

Lemma TwoPhase_kill_skip (host : Host) (w : World) (killer : option Player)
    (killed : option Creature) (t : Z) (urand : Z -> Z -> Z) :
  kill_passes w killer killed urand = false ->
  TwoPhase.OnPlayerCreatureKill host w killer killed t urand = (w, killed).
Proof.
  unfold kill_passes, TwoPhase.OnPlayerCreatureKill.
  destruct killer as [p|], killed as [cr|]; try reflexivity.
  on_guard (enable (gConf w)).
  on_guard (entry cr =? npcEntry (gConf w)).
  on_guard (negb (allowRepeat (gConf w)) && gAlreadyDropped w)%bool.
  on_guard (LootHasItem (Some (loot cr)) ITEM_TALISMAN).
  on_guard (RollDrop urand (chancePct (gConf w))).
Qed.

Lemma TwoPhase_kill_grant (host : Host) (w : World) (killer : option Player)
    (killed : option Creature) (t : Z) (urand : Z -> Z -> Z) :
  kill_passes w killer killed urand = true ->
  exists cr, killed = Some cr /\
    TwoPhase.OnPlayerCreatureKill host w killer killed t urand =
    (let w2 := PersistDropped_KillPhase killer t
                 (emit (CallAddItem (MakeLootStoreItem ITEM_TALISMAN)) w) in
     emit (LogInfo (LogAdded ITEM_TALISMAN (creature_name cr)
                             (allowRepeat (gConf w2)))) w2,
     Some (with_talisman host cr)).
Proof.
  unfold kill_passes, TwoPhase.OnPlayerCreatureKill.
  destruct killer as [p|], killed as [cr|]; try discriminate.
  intros H. exists cr. split; [reflexivity|].
  on_guard (enable (gConf w)).
  on_guard (entry cr =? npcEntry (gConf w)).
  on_guard (negb (allowRepeat (gConf w)) && gAlreadyDropped w)%bool.
  on_guard (LootHasItem (Some (loot cr)) ITEM_TALISMAN).
  on_guard (RollDrop urand (chancePct (gConf w))).
Qed.

Lemma SinglePhase_kill_skip (host : Host) (w : World) (killer : option Player)
    (killed : option Creature) (t : Z) (urand : Z -> Z -> Z) :
  kill_passes w killer killed urand = false ->
  SinglePhase.OnPlayerCreatureKill host w killer killed t urand = (w, killed).
Proof.
  unfold kill_passes, SinglePhase.OnPlayerCreatureKill.
  destruct killer as [p|], killed as [cr|]; try reflexivity.
  on_guard (enable (gConf w)).
  on_guard (entry cr =? npcEntry (gConf w)).
  on_guard (negb (allowRepeat (gConf w)) && gAlreadyDropped w)%bool.
  on_guard (LootHasItem (Some (loot cr)) ITEM_TALISMAN).
  on_guard (RollDrop urand (chancePct (gConf w))).
Qed.

Lemma SinglePhase_kill_grant (host : Host) (w : World) (killer : option Player)
    (killed : option Creature) (t : Z) (urand : Z -> Z -> Z) :
  kill_passes w killer killed urand = true ->
  exists cr, killed = Some cr /\
    SinglePhase.OnPlayerCreatureKill host w killer killed t urand =
    (let w2 := SinglePhase.PersistDropped killer t
                 (emit (CallAddItem (MakeLootStoreItem ITEM_TALISMAN)) w) in
     let w3 := SinglePhase.AnnounceDrop host killer
                 (Some (with_talisman host cr)) w2 in
     emit (LogInfo (LogAdded ITEM_TALISMAN (creature_name cr)
                             (allowRepeat (gConf w3)))) w3,
     Some (with_talisman host cr)).
Proof.
  unfold kill_passes, SinglePhase.OnPlayerCreatureKill.
  destruct killer as [p|], killed as [cr|]; try discriminate.
  intros H. exists cr. split; [reflexivity|].
  on_guard (enable (gConf w)).
  on_guard (entry cr =? npcEntry (gConf w)).
  on_guard (negb (allowRepeat (gConf w)) && gAlreadyDropped w)%bool.
  on_guard (LootHasItem (Some (loot cr)) ITEM_TALISMAN).
  on_guard (RollDrop urand (chancePct (gConf w))).
Qed.

(** ** The double-insert guard *)

Lemma LootHasItem_In (l : Loot) (itemId : Z) :
  LootHasItem (Some l) itemId = true <->
  exists it, (In it (items l) \/ In it (quest_items l)) /\ itemid it = itemId.
Proof.
  unfold LootHasItem. split.
  - destruct (existsb _ (items l)) eqn:E1.
    + intros _. apply existsb_exists in E1. destruct E1 as [it [Hin Heq]].
      exists it. split; [now left | now apply Z.eqb_eq].
    + destruct (existsb _ (quest_items l)) eqn:E2; [|discriminate].
      intros _. apply existsb_exists in E2. destruct E2 as [it [Hin Heq]].
      exists it. split; [now right | now apply Z.eqb_eq].
  - intros [it [[Hin|Hin] Heq]].
    + replace (existsb (fun it0 => itemid it0 =? itemId) (items l)) with true;
        [reflexivity|].
      symmetry. apply existsb_exists. exists it. split; [assumption|].
      now apply Z.eqb_eq.
    + destruct (existsb _ (items l)); [reflexivity|].
      replace (existsb (fun it0 => itemid it0 =? itemId) (quest_items l))
        with true; [reflexivity|].
      symmetry. apply existsb_exists. exists it. split; [assumption|].
      now apply Z.eqb_eq.
Qed.

Lemma kill_passes_has_item (w : World) (killer : option Player) (cr : Creature)
    (urand : Z -> Z -> Z) :
  LootHasItem (Some (loot cr)) ITEM_TALISMAN = true ->
  kill_passes w killer (Some cr) urand = false.
Proof.
  intros H. unfold kill_passes. destruct killer; [|reflexivity].
  rewrite H. cbn [negb]. rewrite andb_false_r. reflexivity.
Qed.

Lemma set_nth_same {A : Type} (l : list A) (i : nat) (x : A) :
  nth_error l i = Some x -> set_nth i x l = l.
Proof.
  revert i. induction l as [|hd tl IH]; intros [|j] H; simpl in *;
    try discriminate.
  - now inversion H.
  - now rewrite IH.
Qed.

Lemma kill_step_skip (h : KillHandler) (s : Server) (k : KillOcc) :
  h (world s) (ko_killer k) (deref s (ko_killed k)) (ko_time k) (ko_urand k)
  = (world s, deref s (ko_killed k)) ->
  kill_step h s k = s.
Proof.
  intros H. unfold kill_step. rewrite H. destruct s as [w cs]; simpl in *.
  f_equal. destruct (ko_killed k) as [i|]; [|reflexivity]. simpl.
  destruct (nth_error cs i) eqn:E; [|reflexivity].
  now apply set_nth_same.
Qed.

(** C6.  A kill occurrence whose corpse already holds the reward item, among
    its normal items or its quest items, changes nothing: the handler of
    either script returns the world and the creature as they were, and in a
    run the corpses of the server stay as they are. *)
Theorem kill_on_looted_corpse_is_noop (host : Host) (w : World)
    (killer : option Player) (cr : Creature) (t : Z) (urand : Z -> Z -> Z) :
  (exists it, (In it (items (loot cr)) \/ In it (quest_items (loot cr)))
              /\ itemid it = ITEM_TALISMAN) ->
  TwoPhase.OnPlayerCreatureKill host w killer (Some cr) t urand = (w, Some cr)
  /\ SinglePhase.OnPlayerCreatureKill host w killer (Some cr) t urand
     = (w, Some cr)
  /\ (forall s k, world s = w -> ko_killer k = killer -> ko_time k = t ->
       ko_urand k = urand -> deref s (ko_killed k) = Some cr ->
       kill_step (TwoPhase.OnPlayerCreatureKill host) s k = s
       /\ kill_step (SinglePhase.OnPlayerCreatureKill host) s k = s).
Proof.
  intros Hhas. apply LootHasItem_In in Hhas.
  pose proof (kill_passes_has_item w killer cr urand Hhas) as Hskip.
  pose proof (TwoPhase_kill_skip host w killer (Some cr) t urand Hskip) as H2.
  pose proof (SinglePhase_kill_skip host w killer (Some cr) t urand Hskip) as H1.
  split; [assumption|]. split; [assumption|].
  intros s k Hw Hk Ht Hu Hd.
  split; apply kill_step_skip; rewrite Hw, Hk, Ht, Hu, Hd; assumption.
Qed.

Lemma kill_on_looted_corpse_is_noop_witness :
  TwoPhase.OnPlayerCreatureKill sample_host world_ready (Some bob)
    (Some geddon_looted) 1700000100 low_roll
  = (world_ready, Some geddon_looted).
Proof.
  apply (kill_on_looted_corpse_is_noop sample_host world_ready (Some bob)
           geddon_looted 1700000100 low_roll).
  exists {| itemid := ITEM_TALISMAN; count := 1 |}.
  split; [left; simpl; right; left; reflexivity | reflexivity].
Defined.

(** ** Recording a grant in repeat mode *)

(** C3, as the code has it.  In repeat mode the kill-phase recording
    operation returns at its first statement: the persisted row (granted
    flag, timestamp and actor) and the in-memory flag are left as they were.
    [PersistDropped] of the single-phase script does the same. *)
Theorem repeat_mode_kill_phase_is_noop (killer : option Player) (t : Z)
    (w : World) :
  allowRepeat (gConf w) = true ->
  PersistDropped_KillPhase killer t w = w
  /\ SinglePhase.PersistDropped killer t w = w.
Proof.
  intros H. unfold SinglePhase.PersistDropped, PersistDropped_KillPhase.
  rewrite H. split; reflexivity.
Qed.

Lemma repeat_mode_kill_phase_is_noop_witness :
  PersistDropped_KillPhase (Some alice) 1700000000 world_repeat = world_repeat
  /\ SinglePhase.PersistDropped (Some alice) 1700000000 world_repeat
     = world_repeat.
Proof.
  apply (repeat_mode_kill_phase_is_noop (Some alice) 1700000000 world_repeat).
  reflexivity.
Defined.

(** C3 as stated fails: in repeat mode, after Alice's grant is recorded at
    time 1700000000, the row still holds timestamp 0 and no actor. *)
Lemma repeat_mode_kill_phase_keeps_metadata :
  allowRepeat (gConf world_repeat) = true
  /\ ~ (exists r,
         db (PersistDropped_KillPhase (Some alice) 1700000000 world_repeat)
         = Some r
         /\ last_drop_time r = now_of 1700000000
         /\ last_killer r = Some "Alice"%string).
Proof.
  split; [reflexivity|].
  intros [r [Hdb [Ht _]]]. cbv in Hdb. inversion Hdb; subst r.
  cbv in Ht. discriminate.
Qed.

(** ** Reset on startup *)

Lemma EnsureTable_db (w : World) :
  exists r, db (EnsureTable w) = Some r
            /\ (forall r0, db w = Some r0 -> r = r0)
            /\ (db w = None -> r = fresh_row).
Proof.
  unfold EnsureTable. destruct (db w) as [r0|] eqn:E.
  - exists r0. rewrite E. repeat split; congruence.
  - exists fresh_row. repeat split; congruence.
Qed.

Lemma EnsureTable_frame (w : World) :
  gConf (EnsureTable w) = gConf w
  /\ gAlreadyDropped (EnsureTable w) = gAlreadyDropped w
  /\ effects (EnsureTable w) = effects w.
Proof. unfold EnsureTable. destruct (db w); repeat split. Qed.

(** C7.  A configuration load whose [GeddonShard.ResetOnStartup] option is
    set leaves the gate not granted: the row is [(dropped = 0,
    last_drop_time = 0, last_killer = NULL)] and the in-memory flag is
    false.  This holds from every state, a GRANTED one in particular. *)
Theorem reset_on_startup_clears_gate (host : Host) (cfg : ConfigMgr)
    (w : World) :
  opt_ResetOnStartup cfg = Some true ->
  let w' := OnAfterConfigLoad host cfg w in
  db w' = Some {| dropped := 0; last_drop_time := 0; last_killer := None |}
  /\ granted w' = false
  /\ gAlreadyDropped w' = false.
Proof.
  intros Hreset. unfold OnAfterConfigLoad. cbn zeta.
  set (w1 := set_conf (load_conf cfg) w).
  assert (Hc : resetOnStart (gConf (EnsureTable w1)) = true).
  { destruct (EnsureTable_frame w1) as [-> _]. unfold w1, load_conf; simpl.
    now rewrite Hreset. }
  destruct (EnsureTable_db w1) as [r [Hr _]].
  unfold MaybeResetState. rewrite Hc. cbn [negb].
  unfold LoadDroppedState, sql_update, store_dropped, emit, set_db, granted.
  cbn [db gAlreadyDropped]. rewrite Hr. cbn.
  repeat split.
Qed.

Lemma reset_on_startup_clears_gate_witness :
  granted world_granted = true
  /\ db (OnAfterConfigLoad sample_host cfg_reset world_granted)
     = Some {| dropped := 0; last_drop_time := 0; last_killer := None |}
  /\ gAlreadyDropped (OnAfterConfigLoad sample_host cfg_reset world_granted)
     = false.
Proof.
  split; [reflexivity|].
  pose proof (reset_on_startup_clears_gate sample_host cfg_reset world_granted
                eq_refl) as [Hdb [_ Hc]].
  split; assumption.
Defined.

(** ** Loot-phase metadata *)

(** C8, as the code has it.  [PersistDropped_LootPhase] never changes the
    granted flag, persisted or in memory.  When repeat mode is off and the
    looter has a non-empty name whose first 63 bytes are ASCII bytes other
    than NUL and backslash, it sets the timestamp of the row to the time of
    the call and the actor to those bytes, apostrophes and quotation marks
    replaced by underscores; in repeat mode, or for an empty name, it
    changes nothing. *)
Theorem loot_phase_metadata (looter : option Player) (t : Z) (w : World) :
  let w' := PersistDropped_LootPhase looter t w in
  option_map dropped (db w') = option_map dropped (db w)
  /\ granted w' = granted w
  /\ gAlreadyDropped w' = gAlreadyDropped w
  /\ (allowRepeat (gConf w) = false -> is_empty (name_of looter) = false ->
      plain (clean_name (name_of looter)) = true ->
      db w' = option_map
                (fun r => {| dropped := dropped r; last_drop_time := now_of t;
                             last_killer := Some (clean_name (name_of looter)) |})
                (db w))
  /\ (allowRepeat (gConf w) = true \/ is_empty (name_of looter) = true ->
      w' = w).
Proof.
  destruct (PersistDropped_LootPhase_spec looter t w) as [_ [_ [Hc Hdb]]].
  cbn zeta. unfold granted. rewrite Hdb.
  split; [|split; [|split; [assumption|split]]].
  - destruct (allowRepeat (gConf w) || is_empty (name_of looter))%bool;
      [reflexivity|].
    destruct (sent_literal (clean_name (name_of looter))); [|reflexivity].
    destruct (db w); reflexivity.
  - destruct (allowRepeat (gConf w) || is_empty (name_of looter))%bool;
      [reflexivity|].
    destruct (sent_literal (clean_name (name_of looter))); [|reflexivity].
    destruct (db w); reflexivity.
  - intros -> -> Hp. rewrite (sent_literal_plain _ Hp). reflexivity.
  - unfold PersistDropped_LootPhase. intros [->| H]; [reflexivity|].
    rewrite H. destruct (allowRepeat (gConf w)); reflexivity.
Qed.

Lemma loot_phase_metadata_witness :
  db (PersistDropped_LootPhase (Some bob) 1700000500 world_granted)
  = Some {| dropped := 1; last_drop_time := 1700000500;
            last_killer := Some "Bob"%string |}.
Proof.
  pose proof (loot_phase_metadata (Some bob) 1700000500 world_granted)
    as [_ [_ [_ [H _]]]].
  exact (H eq_refl eq_refl eq_refl).
Defined.

(** C8 as stated fails: in repeat mode, Bob's collection at time 1700000500
    leaves the row with Alice's name and the old timestamp. *)
Lemma repeat_mode_loot_phase_keeps_metadata :
  allowRepeat (gConf world_repeat_granted) = true
  /\ ~ (exists r,
         db (PersistDropped_LootPhase (Some bob) 1700000500 world_repeat_granted)
         = Some r
         /\ last_drop_time r = now_of 1700000500
         /\ last_killer r = Some "Bob"%string).
Proof.
  split; [reflexivity|].
  intros [r [Hdb [Ht _]]]. cbv in Hdb. inversion Hdb; subst r.
  cbv in Ht. discriminate.
Qed.

(** ** The stored actor name *)

Lemma substring_0_length (m : nat) (s : string) :
  String.length (substring 0 m s) = Nat.min m (String.length s).
Proof.
  revert s. induction m as [|m IH]; intros [|c s]; simpl; try reflexivity.
  now rewrite IH.
Qed.

Lemma substring_0_get (m : nat) (s : string) (i : nat) :
  String.get i (substring 0 m s) = if (i <? m)%nat then String.get i s else None.
Proof.
  revert s i. induction m as [|m IH]; intros [|c s] [|i]; simpl;
    try reflexivity.
  - destruct (S i <? S m)%nat; reflexivity.
  - rewrite IH. reflexivity.
Qed.

Lemma clean_quotes_length (s : string) :
  String.length (clean_quotes s) = String.length s.
Proof. induction s as [|c s IH]; simpl; congruence. Qed.

Lemma clean_quotes_get (s : string) (i : nat) :
  String.get i (clean_quotes s) = option_map clean_char (String.get i s).
Proof.
  revert i. induction s as [|c s IH]; intros [|i]; simpl; try reflexivity.
  apply IH.
Qed.

Lemma clean_char_not_quote (ch : ascii) : is_quote (clean_char ch) = false.
Proof.
  unfold clean_char. fold (is_quote ch).
  destruct (is_quote ch) eqn:E; [reflexivity | exact E].
Qed.

Lemma clean_char_keeps (ch : ascii) :
  is_quote ch = false -> clean_char ch = ch.
Proof. unfold clean_char. fold (is_quote ch). now intros ->. Qed.

Lemma resize63_length (s : string) :
  String.length (resize63 s) = Nat.min 63 (String.length s).
Proof.
  unfold resize63. destruct (63 <? String.length s)%nat eqn:E.
  - apply substring_0_length.
  - apply Nat.ltb_ge in E. lia.
Qed.

Lemma get_beyond (s : string) (i : nat) :
  (String.length s <= i)%nat -> String.get i s = None.
Proof.
  revert i. induction s as [|c s IH]; intros [|i] H; simpl in *;
    try reflexivity; try lia.
  apply IH. lia.
Qed.

Lemma resize63_get (s : string) (i : nat) :
  String.get i (resize63 s) = if (i <? 63)%nat then String.get i s else None.
Proof.
  unfold resize63. destruct (63 <? String.length s)%nat eqn:E.
  - apply substring_0_get.
  - apply Nat.ltb_ge in E. destruct (i <? 63)%nat eqn:Ei; [reflexivity|].
    apply Nat.ltb_ge in Ei. apply get_beyond. lia.
Qed.

Lemma clean_name_length (s : string) :
  String.length (clean_name s) = Nat.min 63 (String.length s).
Proof. unfold clean_name. now rewrite clean_quotes_length, resize63_length. Qed.

Lemma clean_name_get (s : string) (i : nat) :
  String.get i (clean_name s)
  = if (i <? 63)%nat then option_map clean_char (String.get i s) else None.
Proof.
  unfold clean_name. rewrite clean_quotes_get, resize63_get.
  destruct (i <? 63)%nat; reflexivity.
Qed.

Lemma is_quote_underscore : is_quote "_"%char = false.
Proof. reflexivity. Qed.

Lemma clean_quotes_quote_free (s : string) : quote_free (clean_quotes s) = true.
Proof.
  induction s as [|c s IH]; simpl; [reflexivity|].
  now rewrite clean_char_not_quote, IH.
Qed.

Lemma clean_name_quote_free (s : string) : quote_free (clean_name s) = true.
Proof. apply clean_quotes_quote_free. Qed.

Lemma clean_name_not_empty (s : string) :
  is_empty s = false -> is_empty (clean_name s) = false.
Proof.
  intros H. pose proof (clean_name_length s) as Hl.
  destruct s as [|c s]; [discriminate|].
  destruct (clean_name (String c s)); [simpl in Hl; lia | reflexivity].
Qed.

Lemma is_empty_length (s : string) :
  is_empty s = false -> (1 <= String.length s)%nat.
Proof. destruct s; [discriminate | simpl; lia]. Qed.

(** The value stored for a cleaned name, when one is stored. *)
Lemma stored_value_ok (name stored : string) :
  is_empty name = false ->
  sent_literal (clean_name name) = Some stored ->
  (1 <= String.length stored <= 63)%nat /\ quote_free stored = true.
Proof.
  intros Hn Hs.
  destruct (sent_literal_bounds _ _ Hs) as (Hl & He & Hq).
  pose proof (clean_name_length name) as Hc.
  pose proof (is_empty_length _ (He (clean_name_not_empty _ Hn))).
  split; [lia|]. apply Hq, clean_name_quote_free.
Qed.

Lemma actor_written_kill_phase (actor : option Player) (t : Z) (w : World) :
  allowRepeat (gConf w) = false -> is_empty (name_of actor) = false ->
  actor_written (db w) (db (PersistDropped_KillPhase actor t w)).
Proof.
  intros Hrep Hname.
  destruct (PersistDropped_KillPhase_spec actor t w) as [_ [_ [_ Hk]]].
  destruct (Hk Hrep) as [_ Hdb]. cbn zeta in Hdb. rewrite Hdb.
  unfold grant_row. cbn zeta. rewrite Hname.
  destruct (sent_literal (clean_name (name_of actor))) as [stored|] eqn:Hs;
    cbn [option_map write_row]; intros r' Hr'.
  - right. exists stored. destruct (db w); [|discriminate].
    inversion Hr'. split; [reflexivity|].
    destruct (stored_value_ok (name_of actor) stored Hname Hs) as [Hl Hq].
    split; [lia | exact Hq].
  - left. now exists r'.
Qed.

Lemma actor_written_loot_phase (actor : option Player) (t : Z) (w : World) :
  allowRepeat (gConf w) = false -> is_empty (name_of actor) = false ->
  actor_written (db w) (db (PersistDropped_LootPhase actor t w)).
Proof.
  intros Hrep Hname.
  destruct (PersistDropped_LootPhase_spec actor t w) as [_ [_ [_ Hdb]]].
  cbn zeta in Hdb. rewrite Hdb, Hrep, Hname. cbn [orb].
  destruct (sent_literal (clean_name (name_of actor))) as [stored|] eqn:Hs;
    intros r' Hr'.
  - right. exists stored. destruct (db w); [|discriminate].
    inversion Hr'. split; [reflexivity|].
    destruct (stored_value_ok (name_of actor) stored Hname Hs) as [Hl Hq].
    split; [lia | exact Hq].
  - left. now exists r'.
Qed.

(** C9, as the code has it.  When the kill-phase or the loot-phase operation
    runs for a named actor with repeat mode off, the actor column afterwards
    holds what it held before or a value of at most 63 bytes without
    apostrophe and quotation mark.  When the first 63 bytes of the name are
    ASCII bytes other than NUL and backslash, the value stored is those
    bytes with every apostrophe and quotation mark replaced by an
    underscore; every other byte of them, the other control characters
    included, is stored as it is. *)
Theorem stored_actor_name (actor : option Player) (t : Z) (w : World) :
  allowRepeat (gConf w) = false ->
  is_empty (name_of actor) = false ->
  let name := name_of actor in
  let text := clean_name name in
  actor_written (db w) (db (PersistDropped_KillPhase actor t w))
  /\ actor_written (db w) (db (SinglePhase.PersistDropped actor t w))
  /\ actor_written (db w) (db (PersistDropped_LootPhase actor t w))
  /\ (plain text = true ->
      option_map last_killer (db (PersistDropped_KillPhase actor t w))
      = option_map (fun _ => Some text) (db w)
      /\ option_map last_killer (db (SinglePhase.PersistDropped actor t w))
         = option_map (fun _ => Some text) (db w)
      /\ option_map last_killer (db (PersistDropped_LootPhase actor t w))
         = option_map (fun _ => Some text) (db w))
  /\ String.length text = Nat.min 63 (String.length name)
  /\ (forall i ch, (i < 63)%nat -> String.get i name = Some ch ->
       String.get i text = Some (if is_quote ch then "_"%char else ch)).
Proof.
  intros Hrep Hname. cbn zeta.
  change (SinglePhase.PersistDropped actor t w)
    with (PersistDropped_KillPhase actor t w).
  split; [now apply actor_written_kill_phase|].
  split; [now apply actor_written_kill_phase|].
  split; [now apply actor_written_loot_phase|].
  split; [|split].
  - intros Hp.
    destruct (PersistDropped_KillPhase_spec actor t w) as [_ [_ [_ Hk]]].
    destruct (Hk Hrep) as [_ Hkdb].
    destruct (PersistDropped_LootPhase_spec actor t w) as [_ [_ [_ Hl]]].
    cbn zeta in Hkdb, Hl. rewrite Hkdb, Hl, Hrep, Hname. cbn [orb].
    unfold grant_row. cbn zeta. rewrite Hname, (sent_literal_plain _ Hp).
    cbn [option_map write_row].
    repeat split; destruct (db w); reflexivity.
  - apply clean_name_length.
  - intros i ch Hi Hget. rewrite clean_name_get.
    apply Nat.ltb_lt in Hi. rewrite Hi, Hget. reflexivity.
Qed.

Lemma stored_actor_name_witness :
  option_map last_killer
    (db (PersistDropped_KillPhase (Some alice) 1700000000 world_ready))
  = Some (Some "Alice"%string).
Proof.
  pose proof (stored_actor_name (Some alice) 1700000000 world_ready
                eq_refl eq_refl) as [_ [_ [_ [H _]]]].
  exact (proj1 (H eq_refl)).
Defined.

(** C9 as stated fails: the BEL character (code 7) of a name is a control
    character, and it reaches the row unchanged. *)
Lemma control_character_is_stored :
  exists stored,
    option_map last_killer
      (db (PersistDropped_KillPhase (Some {| player_name := bell_name |})
             1700000000 world_ready))
    = Some (Some stored)
    /\ String.get 1 bell_name = Some "007"%char
    /\ is_control "007"%char = true
    /\ String.get 1 stored = Some "007"%char.
Proof. exists bell_name. repeat split. Qed.

(** ** Monotonicity of the persisted flag *)

Lemma granted_same_db (w w' : World) : db w' = db w -> granted w' = granted w.
Proof. unfold granted. now intros ->. Qed.

Lemma grant_row_dropped (killer : option Player) (t : Z) (r : Row) :
  grant_row killer t = Some r -> dropped r = 1.
Proof.
  unfold grant_row. cbn zeta. destruct (is_empty (name_of killer)).
  - intros H. inversion H. reflexivity.
  - destruct (sent_literal (clean_name (name_of killer))); [|discriminate].
    intros H. inversion H. reflexivity.
Qed.

Lemma grant_row_of_plain (killer : option Player) (t : Z) :
  name_plain (name_of killer) = true -> exists r, grant_row killer t = Some r.
Proof.
  unfold name_plain, grant_row. cbn zeta.
  destruct (is_empty (name_of killer)); [intros _; eexists; reflexivity|].
  cbn [orb]. intros Hp. rewrite (sent_literal_plain _ Hp).
  eexists; reflexivity.
Qed.

Lemma granted_kill_phase (killer : option Player) (t : Z) (w : World) :
  granted w = true -> granted (PersistDropped_KillPhase killer t w) = true.
Proof.
  destruct (PersistDropped_KillPhase_spec killer t w) as [_ [_ [Hrep Hnorep]]].
  cbn zeta in *. destruct (allowRepeat (gConf w)).
  - now rewrite Hrep.
  - destruct (Hnorep eq_refl) as [_ Hdb]. unfold granted. rewrite Hdb.
    destruct (grant_row killer t) as [r|] eqn:Hg; [|trivial].
    destruct (db w); [|discriminate]. intros _. cbn.
    now rewrite (grant_row_dropped _ _ _ Hg).
Qed.

Lemma granted_loot_phase (looter : option Player) (t : Z) (w : World) :
  granted (PersistDropped_LootPhase looter t w) = granted w.
Proof.
  destruct (PersistDropped_LootPhase_spec looter t w) as [_ [_ [_ Hdb]]].
  cbn zeta in Hdb. unfold granted. rewrite Hdb.
  destruct (allowRepeat (gConf w) || is_empty (name_of looter))%bool;
    [reflexivity|].
  destruct (sent_literal (clean_name (name_of looter))); [|reflexivity].
  destruct (db w); reflexivity.
Qed.

Lemma granted_config_load (host : Host) (cfg : ConfigMgr) (w : World) :
  GetOption (opt_ResetOnStartup cfg) false = false ->
  granted w = true -> granted (OnAfterConfigLoad host cfg w) = true.
Proof.
  intros Hopt Hg. unfold OnAfterConfigLoad. cbn zeta.
  set (w1 := set_conf (load_conf cfg) w).
  assert (Hc : resetOnStart (gConf (EnsureTable w1)) = false).
  { destruct (EnsureTable_frame w1) as [-> _]. unfold w1, load_conf; simpl.
    exact Hopt. }
  unfold MaybeResetState. rewrite Hc. cbn [negb].
  unfold granted in *. destruct (db w) as [r|] eqn:E; [|discriminate].
  assert (Hdb : db (EnsureTable w1) = Some r).
  { unfold EnsureTable, w1. simpl. rewrite E. simpl. exact E. }
  unfold LoadDroppedState. rewrite Hdb. simpl. rewrite Hdb. exact Hg.
Qed.

(** C5.  No operation of the module other than the explicit reset takes the
    persisted granted flag from true to false: if the flag is set before an
    operation that does not run the reset, it is set after it. *)
Theorem granted_is_monotone (host : Host) (op : Operation) (w : World) :
  performs_reset op w = false ->
  granted w = true ->
  granted (exec host op w) = true.
Proof.
  intros Hop Hg. destruct op; simpl in *.
  - (* EnsureTable *)
    unfold granted in *. destruct (EnsureTable_db w) as [r [Hr [Hsame _]]].
    rewrite Hr. destruct (db w) as [r0|]; [|discriminate].
    now rewrite (Hsame r0 eq_refl).
  - (* LoadDroppedState *)
    unfold LoadDroppedState. destruct (db w) eqn:E; rewrite <- Hg;
      apply granted_same_db; reflexivity.
  - (* MaybeResetState *)
    unfold MaybeResetState. rewrite Hop. exact Hg.
  - now apply granted_kill_phase.
  - now rewrite granted_loot_phase.
  - now apply granted_kill_phase.
  - exact Hg.
  - exact Hg.
  - destruct l; exact Hg.
  - now apply granted_config_load.
  - (* OnPlayerCreatureKill, two-phase *)
    destruct (kill_passes w killer killed urand) eqn:E.
    + destruct (TwoPhase_kill_grant host w killer killed t urand E)
        as [cr [_ ->]]. cbn [fst].
      change (granted (PersistDropped_KillPhase killer t
                (emit (CallAddItem (MakeLootStoreItem ITEM_TALISMAN)) w))
              = true).
      apply granted_kill_phase. exact Hg.
    + now rewrite (TwoPhase_kill_skip host w killer killed t urand E).
  - (* OnPlayerLootItem *)
    unfold TwoPhase.OnPlayerLootItem.
    destruct looter; [|exact Hg]. destruct item as [it|]; [|exact Hg].
    destruct (negb (enable (gConf w))); [exact Hg|].
    destruct (negb (item_entry it =? ITEM_TALISMAN)); [exact Hg|].
    rewrite granted_loot_phase. exact Hg.
  - (* OnPlayerCreatureKill, single-phase *)
    destruct (kill_passes w killer killed urand) eqn:E.
    + destruct (SinglePhase_kill_grant host w killer killed t urand E)
        as [cr [_ ->]]. cbn [fst].
      change (granted (PersistDropped_KillPhase killer t
                (emit (CallAddItem (MakeLootStoreItem ITEM_TALISMAN)) w))
              = true).
      apply granted_kill_phase. exact Hg.
    + now rewrite (SinglePhase_kill_skip host w killer killed t urand E).
Qed.

Lemma granted_is_monotone_witness :
  granted (exec sample_host (CallOnAfterConfigLoad cfg_plain) world_granted)
  = true.
Proof.
  apply (granted_is_monotone sample_host (CallOnAfterConfigLoad cfg_plain)
           world_granted); reflexivity.
Defined.

(** ** At most one grant *)

Lemma kill_passes_closed (w : World) (killer : option Player)
    (killed : option Creature) (urand : Z -> Z -> Z) :
  allowRepeat (gConf w) = false -> gAlreadyDropped w = true ->
  kill_passes w killer killed urand = false.
Proof.
  intros Hr Hd. unfold kill_passes.
  destruct killer; [|reflexivity]. destruct killed; [|reflexivity].
  rewrite Hr, Hd. cbn [negb andb].
  now rewrite andb_false_r.
Qed.

Lemma grant_closes_gate (killer : option Player) (t : Z) (w : World) :
  allowRepeat (gConf w) = false ->
  let w2 := PersistDropped_KillPhase killer t
              (emit (CallAddItem (MakeLootStoreItem ITEM_TALISMAN)) w) in
  allowRepeat (gConf w2) = false
  /\ insertions w2 = S (insertions w)
  /\ gAlreadyDropped w2 = true
  /\ (db w <> None -> name_plain (name_of killer) = true ->
      granted w2 = true).
Proof.
  intros Hr. cbn zeta.
  set (w1 := emit (CallAddItem (MakeLootStoreItem ITEM_TALISMAN)) w).
  destruct (PersistDropped_KillPhase_spec killer t w1) as [Hc [He [_ Hn]]].
  cbn zeta in *. destruct (Hn Hr) as [Hd Hdb].
  split; [rewrite Hc; exact Hr|]. split; [|split; [exact Hd|]].
  - unfold insertions. rewrite He. reflexivity.
  - intros Hrow Hacc. unfold granted. rewrite Hdb.
    destruct (grant_row_of_plain killer t Hacc) as [r Hg]. rewrite Hg.
    change (db w1) with (db w). destruct (db w); [|congruence].
    cbn. now rewrite (grant_row_dropped _ _ _ Hg).
Qed.

Lemma TwoPhase_gated (host : Host) : gated (TwoPhase.OnPlayerCreatureKill host).
Proof.
  intros w killer killed t urand Hr. cbn zeta. split.
  - intros Hd.
    now rewrite (TwoPhase_kill_skip host w killer killed t urand
                   (kill_passes_closed w killer killed urand Hr Hd)).
  - destruct (kill_passes w killer killed urand) eqn:E.
    + right.
      destruct (TwoPhase_kill_grant host w killer killed t urand E)
        as [cr [_ ->]]. cbn [fst].
      exact (grant_closes_gate killer t w Hr).
    + left. now rewrite (TwoPhase_kill_skip host w killer killed t urand E).
Qed.

Lemma SinglePhase_gated (host : Host) :
  gated (SinglePhase.OnPlayerCreatureKill host).
Proof.
  intros w killer killed t urand Hr. cbn zeta. split.
  - intros Hd.
    now rewrite (SinglePhase_kill_skip host w killer killed t urand
                   (kill_passes_closed w killer killed urand Hr Hd)).
  - destruct (kill_passes w killer killed urand) eqn:E.
    + right.
      destruct (SinglePhase_kill_grant host w killer killed t urand E)
        as [cr [_ ->]]. cbn [fst].
      exact (grant_closes_gate killer t w Hr).
    + left. now rewrite (SinglePhase_kill_skip host w killer killed t urand E).
Qed.

Lemma world_kill_step (h : KillHandler) (s : Server) (k : KillOcc) :
  world (kill_step h s k)
  = fst (h (world s) (ko_killer k) (deref s (ko_killed k)) (ko_time k)
           (ko_urand k)).
Proof. unfold kill_step. destruct (h _ _ _ _ _); reflexivity. Qed.

Section Runs.
Variable h : KillHandler.
Hypothesis h_gated : gated h.

Lemma run_closed (ks : list KillOcc) (s : Server) :
  allowRepeat (gConf (world s)) = false ->
  gAlreadyDropped (world s) = true ->
  world (run_kills h s ks) = world s.
Proof.
  revert s. induction ks as [|k ks IH]; intros s Hr Hd; [reflexivity|].
  unfold run_kills in *. simpl.
  assert (Hw : world (kill_step h s k) = world s).
  { rewrite world_kill_step. now apply h_gated. }
  rewrite IH; rewrite Hw; auto.
Qed.

Lemma run_counts (n0 : nat) (ks : list KillOcc) (s : Server) :
  allowRepeat (gConf (world s)) = false ->
  insertions (world s) = n0
  \/ (insertions (world s) = S n0 /\ gAlreadyDropped (world s) = true) ->
  let s' := run_kills h s ks in
  allowRepeat (gConf (world s')) = false
  /\ (insertions (world s') = n0
      \/ (insertions (world s') = S n0 /\ gAlreadyDropped (world s') = true)).
Proof.
  revert s. induction ks as [|k ks IH]; intros s Hr Hs; [now split|].
  unfold run_kills in *. simpl. apply IH.
  - rewrite world_kill_step.
    destruct (h_gated (world s) (ko_killer k) (deref s (ko_killed k))
                (ko_time k) (ko_urand k) Hr) as [_ [-> | [H _]]];
      assumption.
  - rewrite world_kill_step.
    destruct (h_gated (world s) (ko_killer k) (deref s (ko_killed k))
                (ko_time k) (ko_urand k) Hr) as [Hc [-> | [_ [Hi [Hg _]]]]];
      [assumption|].
    destruct Hs as [Hs | [Hs Hcl]].
    + right. split; [congruence | exact Hg].
    + exfalso. rewrite (Hc Hcl) in Hi. lia.
Qed.

Lemma run_once_only (s : Server) (ks : list KillOcc) :
  allowRepeat (gConf (world s)) = false -> once_only h s ks.
Proof.
  intros Hr. split.
  - destruct (run_counts (insertions (world s)) ks s Hr (or_introl eq_refl))
      as [_ [H | [H _]]]; lia.
  - intros ks1 ks2 -> Hlt.
    destruct (run_counts (insertions (world s)) ks1 s Hr (or_introl eq_refl))
      as [Hr1 [H | [_ Hcl]]]; [lia|].
    unfold run_kills in *. rewrite fold_left_app.
    fold (run_kills h (fold_left (kill_step h) ks1 s) ks2).
    rewrite run_closed; [exact Hcl | exact Hr1 | exact Hcl].
Qed.

Lemma granted_has_row (w : World) : granted w = true -> db w <> None.
Proof. unfold granted. destruct (db w); [discriminate | discriminate]. Qed.

(** The same count, with the persisted flag, for a run whose statements all
    stand. *)
Lemma run_rows (n0 : nat) (ks : list KillOcc) (s : Server) :
  allowRepeat (gConf (world s)) = false ->
  db (world s) <> None ->
  names_plain ks ->
  insertions (world s) = n0
  \/ (insertions (world s) = S n0 /\ gAlreadyDropped (world s) = true
      /\ granted (world s) = true) ->
  let s' := run_kills h s ks in
  allowRepeat (gConf (world s')) = false
  /\ (insertions (world s') = n0
      \/ (insertions (world s') = S n0 /\ gAlreadyDropped (world s') = true
          /\ granted (world s') = true)).
Proof.
  revert s. induction ks as [|k ks IH]; intros s Hr Hrow Hacc Hs; [now split|].
  inversion Hacc as [|k' ks' Hk Hks]; subst.
  unfold run_kills in *. simpl.
  destruct (h_gated (world s) (ko_killer k) (deref s (ko_killed k))
              (ko_time k) (ko_urand k) Hr)
    as [Hc [Hsame | (Hr' & Hi & Hg & Hp)]].
  - apply IH; try rewrite world_kill_step; try rewrite Hsame; assumption.
  - specialize (Hp Hrow Hk).
    apply IH; try rewrite world_kill_step;
      [exact Hr' | now apply granted_has_row | exact Hks |].
    destruct Hs as [Hs | (Hs & Hcl & _)].
    + right. repeat split; [congruence | exact Hg | exact Hp].
    + exfalso. rewrite (Hc Hcl) in Hi. lia.
Qed.

Lemma run_row_closed (s : Server) (ks : list KillOcc) :
  allowRepeat (gConf (world s)) = false ->
  db (world s) <> None ->
  names_plain ks ->
  row_closed h s ks.
Proof.
  intros Hr Hrow Hacc ks1 ks2 -> Hlt.
  apply Forall_app in Hacc. destruct Hacc as [Hacc1 _].
  destruct (run_rows (insertions (world s)) ks1 s Hr Hrow Hacc1
              (or_introl eq_refl)) as [Hr1 [H | (_ & Hcl & Hg)]]; [lia|].
  unfold run_kills in *. rewrite fold_left_app.
  fold (run_kills h (fold_left (kill_step h) ks1 s) ks2).
  rewrite run_closed; [exact Hg | exact Hr1 | exact Hcl].
Qed.
End Runs.

(** C1, at the failing input: a killer whose name holds a NUL byte, the row
    present, repeat mode off.  The kill inserts the item and sets the
    in-memory flag; the statement that should set [dropped] ends at the NUL
    byte and is rejected, so the persisted granted flag is false after the
    insertion and still false after the next kill of the run.  A process
    started on that row finds the gate open and inserts the item again.
    Both scripts. *)
Theorem nul_named_grant_is_not_persisted :
  let two := run_kills (TwoPhase.OnPlayerCreatureKill sample_host) in
  let single := run_kills (SinglePhase.OnPlayerCreatureKill sample_host) in
  let ks := [kill_by mallory 0 1700000000; kill_by bob 1 1700000100] in
  let restarted := OnAfterConfigLoad sample_host cfg_plain
                     (fresh_process (db (world (two server_ready ks)))) in
  allowRepeat (gConf (world server_ready)) = false
  /\ insertions (world (two server_ready [kill_by mallory 0 1700000000]))
     = 1%nat
  /\ gAlreadyDropped (world (two server_ready ks)) = true
  /\ insertions (world (two server_ready ks)) = 1%nat
  /\ db (world (two server_ready ks)) = Some fresh_row
  /\ granted (world (two server_ready ks)) = false
  /\ insertions (world (single server_ready ks)) = 1%nat
  /\ granted (world (single server_ready ks)) = false
  /\ gAlreadyDropped restarted = false
  /\ insertions
       (fst (TwoPhase.OnPlayerCreatureKill sample_host restarted (Some bob)
               (Some geddon) 1700000200 low_roll)) = 1%nat.
Proof. vm_compute. repeat split. Qed.

(** ** At most one insertion *)

(** With [allowRepeat = false], over every run of kill occurrences (any
    killers, any names, any corpses, shared or not, any rolls) the reward
    item is inserted at most once, and once a prefix of the run has inserted
    it the in-memory flag is true at the end of the run, however long the
    rest is.  Both scripts. *)
Theorem at_most_one_insertion (host : Host) (s : Server) (ks : list KillOcc) :
  allowRepeat (gConf (world s)) = false ->
  once_only (TwoPhase.OnPlayerCreatureKill host) s ks
  /\ once_only (SinglePhase.OnPlayerCreatureKill host) s ks.
Proof.
  intros Hr. split; apply run_once_only;
    auto using TwoPhase_gated, SinglePhase_gated.
Qed.

Lemma at_most_one_insertion_witness :
  once_only (TwoPhase.OnPlayerCreatureKill sample_host) server_ready
    [kill_by mallory 0 1700000000; kill_by bob 0 1700000100;
     kill_by bob 1 1700000200].
Proof.
  apply (at_most_one_insertion sample_host server_ready
           [kill_by mallory 0 1700000000; kill_by bob 0 1700000100;
            kill_by bob 1 1700000200]).
  reflexivity.
Defined.

(** With [allowRepeat = false] and the row present, over every run of kill
    occurrences whose killers have plain names (empty, or with ASCII bytes
    other than NUL and backslash as their first 63 bytes), the persisted
    granted flag is true at the end of the run once a prefix of the run has
    inserted the item.  Both scripts. *)
Theorem plain_names_close_the_row (host : Host) (s : Server)
    (ks : list KillOcc) :
  allowRepeat (gConf (world s)) = false ->
  db (world s) <> None ->
  names_plain ks ->
  row_closed (TwoPhase.OnPlayerCreatureKill host) s ks
  /\ row_closed (SinglePhase.OnPlayerCreatureKill host) s ks.
Proof.
  intros Hr Hrow Hacc.
  split; apply run_row_closed; auto using TwoPhase_gated, SinglePhase_gated.
Qed.

Lemma plain_names_close_the_row_witness :
  granted
    (world (run_kills (TwoPhase.OnPlayerCreatureKill sample_host) server_ready
              [kill_by alice 0 1700000000; kill_by bob 0 1700000100;
               kill_by bob 1 1700000200])) = true.
Proof.
  refine (proj1 (plain_names_close_the_row sample_host server_ready
                   [kill_by alice 0 1700000000; kill_by bob 0 1700000100;
                    kill_by bob 1 1700000200] eq_refl _ _)
            [kill_by alice 0 1700000000]
            [kill_by bob 0 1700000100; kill_by bob 1 1700000200]
            eq_refl _).
  - discriminate.
  - repeat constructor.
  - vm_compute. lia.
Defined.

(** ** Where the announcement is made *)

Lemma broadcasts_emit (e : Effect) (w : World) :
  broadcasts (emit e w)
  = match e with
    | SendGlobalMessage m => m :: broadcasts w
    | _ => broadcasts w
    end.
Proof. destruct e; reflexivity. Qed.

Lemma broadcasts_same_effects (w w' : World) :
  effects w' = effects w -> broadcasts w' = broadcasts w.
Proof. unfold broadcasts. now intros ->. Qed.

Lemma broadcasts_kill_phase (killer : option Player) (t : Z) (w : World) :
  broadcasts (PersistDropped_KillPhase killer t w) = broadcasts w.
Proof.
  apply broadcasts_same_effects.
  now destruct (PersistDropped_KillPhase_spec killer t w) as [_ [He _]].
Qed.

Lemma broadcasts_loot_phase (looter : option Player) (t : Z) (w : World) :
  broadcasts (PersistDropped_LootPhase looter t w) = broadcasts w.
Proof.
  apply broadcasts_same_effects.
  now destruct (PersistDropped_LootPhase_spec looter t w) as [_ [He _]].
Qed.

Lemma insertions_kill_phase (killer : option Player) (t : Z) (w : World) :
  insertions (PersistDropped_KillPhase killer t w) = insertions w.
Proof.
  unfold insertions.
  now destruct (PersistDropped_KillPhase_spec killer t w) as [_ [-> _]].
Qed.

Lemma broadcasts_config_load (host : Host) (cfg : ConfigMgr) (w : World) :
  broadcasts (OnAfterConfigLoad host cfg w) = broadcasts w.
Proof.
  unfold OnAfterConfigLoad. cbn zeta. rewrite broadcasts_emit.
  set (w1 := set_conf (load_conf cfg) w).
  assert (H1 : broadcasts (EnsureTable w1) = broadcasts w).
  { apply broadcasts_same_effects.
    now destruct (EnsureTable_frame w1) as [_ [_ ->]]. }
  assert (H2 : broadcasts (MaybeResetState (EnsureTable w1)) = broadcasts w).
  { unfold MaybeResetState.
    destruct (negb (resetOnStart (gConf (EnsureTable w1)))); exact H1. }
  unfold LoadDroppedState.
  destruct (db (MaybeResetState (EnsureTable w1))); exact H2.
Qed.

(** C4, as the code has it.  In the two-phase script a kill occurrence never
    emits a server-wide announcement, whether it inserts the reward item
    (exactly when [kill_passes] holds) or not; the announcement is emitted by
    the loot-collection occurrence, exactly when the module is enabled, the
    looter and the item are not null and the item is the reward item; a
    configuration load emits none.  The single-phase script emits its
    announcement during the kill occurrence, exactly when it inserts. *)
Theorem announcement_phase (host : Host) (w : World) :
  (forall killer killed t urand,
      let w' := fst (TwoPhase.OnPlayerCreatureKill host w killer killed t urand) in
      broadcasts w' = broadcasts w
      /\ insertions w'
         = if kill_passes w killer killed urand then S (insertions w)
           else insertions w)
  /\ (forall looter item lootGuid t,
      broadcasts (TwoPhase.OnPlayerLootItem host w looter item lootGuid t)
      = match looter, item with
        | Some p, Some it =>
            if (enable (gConf w) && (item_entry it =? ITEM_TALISMAN))%bool
            then (player_name p
                  ++ " has looted the legendary Talisman of Binding Shard from "
                  ++ TwoPhase.GetLootSourceName host w looter lootGuid
                  ++ "!")%string :: broadcasts w
            else broadcasts w
        | _, _ => broadcasts w
        end)
  /\ (forall cfg, broadcasts (OnAfterConfigLoad host cfg w) = broadcasts w)
  /\ (forall killer killed t urand,
      let w' := fst (SinglePhase.OnPlayerCreatureKill host w killer killed t
                       urand) in
      insertions w'
      = (if kill_passes w killer killed urand then S (insertions w)
         else insertions w)
      /\ broadcasts w'
         = match killer, killed with
           | Some p, Some cr =>
               if kill_passes w killer killed urand
               then (player_name p ++ " has defeated " ++ creature_name cr
                     ++ " and claimed the legendary Talisman of Binding Shard!")%string
                    :: broadcasts w
               else broadcasts w
           | _, _ => broadcasts w
           end).
Proof.
  split; [|split; [|split]].
  - intros killer killed t urand. cbn zeta.
    destruct (kill_passes w killer killed urand) eqn:E.
    + destruct (TwoPhase_kill_grant host w killer killed t urand E)
        as [cr [_ ->]]. cbn [fst]. cbn zeta.
      rewrite broadcasts_emit, insertions_emit. cbn [is_talisman_insert].
      rewrite broadcasts_kill_phase, insertions_kill_phase.
      split; reflexivity.
    + rewrite (TwoPhase_kill_skip host w killer killed t urand E).
      split; reflexivity.
  - intros looter item lootGuid t. unfold TwoPhase.OnPlayerLootItem.
    destruct looter as [p|]; [|reflexivity].
    destruct item as [it|]; [|reflexivity].
    destruct (enable (gConf w)); cbn [negb andb]; [|reflexivity].
    destruct (item_entry it =? ITEM_TALISMAN); cbn [negb]; [|reflexivity].
    rewrite broadcasts_loot_phase. reflexivity.
  - intros cfg. apply broadcasts_config_load.
  - intros killer killed t urand. cbn zeta.
    destruct (kill_passes w killer killed urand) eqn:E.
    + destruct (SinglePhase_kill_grant host w killer killed t urand E)
        as [cr [-> ->]]. cbn [fst]. cbn zeta.
      rewrite broadcasts_emit, insertions_emit. cbn [is_talisman_insert].
      unfold SinglePhase.AnnounceDrop.
      rewrite broadcasts_emit, insertions_emit. cbn [is_talisman_insert].
      change (SinglePhase.PersistDropped killer t) with
        (PersistDropped_KillPhase killer t).
      rewrite broadcasts_kill_phase, insertions_kill_phase.
      destruct killer as [p|]; [|discriminate E].
      split; reflexivity.
    + rewrite (SinglePhase_kill_skip host w killer killed t urand E).
      split; [reflexivity|]. destruct killer, killed; reflexivity.
Qed.

(** C4 as stated fails on the single-phase script: Alice's kill inserts the
    reward item and the announcement is made during that kill occurrence. *)
Lemma single_phase_announces_at_kill :
  let w' := fst (SinglePhase.OnPlayerCreatureKill sample_host world_ready
                   (Some alice) (Some geddon) 1700000000 low_roll) in
  broadcasts world_ready = []
  /\ insertions w' = 1%nat
  /\ broadcasts w'
     = ["Alice has defeated Baron Geddon and claimed the legendary Talisman of Binding Shard!"%string].
Proof. vm_compute. repeat split. Qed.

(** In the two-phase script the same kill is silent, and the announcement
    comes with the collection of the item. *)
Example two_phase_announces_at_loot :
  let w1 := fst (TwoPhase.OnPlayerCreatureKill sample_host world_ready
                   (Some alice) (Some geddon) 1700000000 low_roll) in
  let w2 := TwoPhase.OnPlayerLootItem sample_host w1 (Some alice)
              (Some {| item_entry := ITEM_TALISMAN |}) (GuidCreature 7)
              1700000050 in
  insertions w1 = 1%nat
  /\ broadcasts w1 = []
  /\ broadcasts w2
     = ["Alice has looted the legendary Talisman of Binding Shard from Baron Geddon!"%string]
  /\ db w2 = Some {| dropped := 1; last_drop_time := 1700000050;
                     last_killer := Some "Alice"%string |}.
Proof. vm_compute. repeat split. Qed.

(** ** The roll *)

Example d0_005_is_5_thousandths :
  Double.mul Double.d0_005 (Double.of_Z 1000) = Double.of_Z 5.
Proof. reflexivity. Qed.

(** The binary32 value next below 0.005 yields threshold 0; the one next
    above yields 1. *)
Example need_of_around_0_005 :
  need_of (Single.to_double (S754_finite false 10737418 (-31))) = 0
  /\ need_of (Single.to_double (S754_finite false 10737419 (-31))) = 1.
Proof. split; reflexivity. Qed.

(** A double that is no binary32 value: the one next below the double
    nearest to 0.005.  The addition of 0.5 rounds up to 1.0 there, so the
    restriction of the configuration to [float] values matters. *)
Example need_of_double_below_0_005 :
  Double.ltb (S754_finite false 5764607523034234 (-60)) Double.d0_005 = true
  /\ need_of (S754_finite false 5764607523034234 (-60)) = 1
  /\ round_chance (S754_finite false 5764607523034234 (-60)) = 0.
Proof. repeat split; reflexivity. Qed.

Lemma SFleb_finite_false (q : positive) (E : Z) (q' : positive) (E' : Z) :
  E < E' \/ (E = E' /\ Zpos q < Zpos q') ->
  SFleb (S754_finite false q' E') (S754_finite false q E) = false.
Proof.
  intros H. unfold SFleb, SFcompare.
  destruct (Z.compare_spec E' E) as [Heq|Hlt|Hgt]; try lia; try reflexivity.
  fold (Pos.compare q' q).
  destruct (Pos.compare_spec q' q); try reflexivity; lia.
Qed.

Lemma leb_100_excludes_leb_0 (c : double) :
  Double.leb Double.d100 c = true -> Double.leb c Double.d0 = false.
Proof. destruct c as [[|]|[|]| |[|] m e]; try discriminate; reflexivity. Qed.

(** The chance a configuration load leaves in [gConf], when it lies strictly
    between 0 and a bound [B] that is at most 100: the option is a positive
    finite [float] and the chance is its conversion to [double]. *)
Lemma configured_chance (cfg : ConfigMgr) (B : double) :
  Single.valid (GetOption (opt_Chance cfg) Single.f1) = true ->
  Double.ltb Double.d100 B = false ->
  let c := chancePct (load_conf cfg) in
  Double.ltb Double.d0 c = true -> Double.ltb c B = true ->
  exists m e,
    Single.valid (S754_finite false m e) = true
    /\ c = Double.norm64 false m e.
Proof.
  intros Hv HB. unfold load_conf. cbn [chancePct].
  destruct (GetOption (opt_Chance cfg) Single.f1) as [s|s| |s m e] eqn:Ef.
  - destruct s; cbn; discriminate.
  - destruct s; cbn; try discriminate. intros _ H. congruence.
  - cbn; discriminate.
  - rewrite (to_double_norm64 s m e Hv). destruct s.
    + cbn. discriminate.
    + change (Double.ltb (Double.norm64 false m e) Double.d0) with false.
      cbv iota.
      destruct (Double.ltb Double.d100 (Double.norm64 false m e)).
      * intros _ H. congruence.
      * intros _ _. exists m, e. split; [assumption | reflexivity].
Qed.

Lemma RollDrop_between (urand : Z -> Z -> Z) (m : positive) (e : Z) :
  Single.valid (S754_finite false m e) = true ->
  Double.ltb (Double.norm64 false m e) Double.d100 = true ->
  RollDrop urand (Double.norm64 false m e)
  = (urand 1 10000 <=? (200 * Zpos m + 2 ^ (- e)) / 2 ^ (1 - e)).
Proof.
  intros Hv Hlt.
  pose proof (below_100_exponent m e Hv Hlt) as He.
  destruct (single_valid_bounds false m e Hv) as [_ [Hlo _]].
  pose proof (single_mantissa_bound false m e Hv) as Hm.
  unfold RollDrop.
  change (Double.leb (Double.norm64 false m e) Double.d0) with false.
  assert (Hge : Double.leb Double.d100 (Double.norm64 false m e) = false).
  { unfold Double.ltb, Double.d100, Double.norm64 in Hlt.
    apply SFltb_finite in Hlt. now apply SFleb_finite_false. }
  rewrite Hge. cbv zeta. rewrite need_of_norm64 by lia. reflexivity.
Qed.

(** C2.  [RollDrop] answers false for every chance that is [<= 0] and true
    for every chance that is [>= 100].  For every chance that a configuration
    load leaves strictly between 0 and 100 it draws [urand(1, 10000)] and
    answers true exactly when the draw is at most [round(chance * 100)], the
    exact product rounded to the nearest integer: the binary64 computation
    [static_cast<uint32>(chance * 100.0 + 0.5)] of the source returns that
    integer.  (A chance that is not a number is outside both comparisons and
    outside this statement; the source's conversion is undefined for it.) *)
Theorem RollDrop_contract (urand : Z -> Z -> Z) :
  (forall c, Double.leb c Double.d0 = true -> RollDrop urand c = false)
  /\ (forall c, Double.leb Double.d100 c = true -> RollDrop urand c = true)
  /\ (forall cfg,
        Single.valid (GetOption (opt_Chance cfg) Single.f1) = true ->
        let c := chancePct (load_conf cfg) in
        Double.ltb Double.d0 c = true -> Double.ltb c Double.d100 = true ->
        need_of c = round_chance c
        /\ RollDrop urand c = (urand 1 10000 <=? round_chance c)).
Proof.
  split; [|split].
  - intros c H. unfold RollDrop. now rewrite H.
  - intros c H. unfold RollDrop.
    now rewrite (leb_100_excludes_leb_0 c H), H.
  - intros cfg Hv c H0 H100.
    destruct (configured_chance cfg Double.d100 Hv eq_refl H0 H100)
      as [m [e [Hvm Hc]]].
    fold c in Hc. rewrite Hc in *.
    pose proof (below_100_exponent m e Hvm H100) as He.
    destruct (single_valid_bounds false m e Hvm) as [Hs [Hlo _]].
    pose proof (single_mantissa_bound false m e Hvm) as Hm.
    rewrite round_chance_norm64 by lia.
    split; [apply need_of_norm64; lia | now apply RollDrop_between].
Qed.

(** 12.5 percent: the threshold is 1250. *)
Lemma RollDrop_contract_witness :
  RollDrop low_roll
    (chancePct (load_conf (cfg_chance (S754_finite false 13107200 (-20)))))
  = (low_roll 1 10000
     <=? round_chance
           (chancePct (load_conf (cfg_chance (S754_finite false 13107200 (-20)))))).
Proof.
  pose proof (RollDrop_contract low_roll) as [_ [_ H]].
  exact (proj2 (H (cfg_chance (S754_finite false 13107200 (-20)))
                  eq_refl eq_refl eq_refl)).
Defined.

(** C10.  For every chance that a configuration load leaves strictly between
    0 and 0.005, the threshold [static_cast<uint32>(chance * 100.0 + 0.5)]
    is 0, as is [round(chance * 100)]; a draw of at least 1 is never at most
    0, so [RollDrop] answers false and no kill occurrence passes the guard. *)
Theorem tiny_chance_never_grants (urand : Z -> Z -> Z) (cfg : ConfigMgr) :
  Single.valid (GetOption (opt_Chance cfg) Single.f1) = true ->
  let c := chancePct (load_conf cfg) in
  Double.ltb Double.d0 c = true -> Double.ltb c Double.d0_005 = true ->
  need_of c = 0
  /\ round_chance c = 0
  /\ (1 <= urand 1 10000 ->
      RollDrop urand c = false
      /\ forall w killer killed,
           gConf w = load_conf cfg ->
           kill_passes w killer killed urand = false).
Proof.
  intros Hv c H0 Hlt.
  destruct (configured_chance cfg Double.d0_005 Hv eq_refl H0 Hlt)
    as [m [e [Hvm Hc]]].
  fold c in Hc.
  assert (Hc' : chancePct (load_conf cfg) = Double.norm64 false m e) by exact Hc.
  rewrite Hc in *. clear Hc.
  destruct (below_0_005_value m e Hvm Hlt) as [He Hsmall].
  destruct (single_valid_bounds false m e Hvm) as [Hs [Hlo _]].
  pose proof (single_mantissa_bound false m e Hvm) as Hm.
  assert (Hq : (200 * Zpos m + 2 ^ (- e)) / 2 ^ (1 - e) = 0).
  { apply Z.div_small.
    assert (0 < 2 ^ (- e)) by (apply pow2_pos; lia).
    replace (1 - e) with (1 + - e) by lia. rewrite Z.pow_add_r by lia.
    change (2 ^ 1) with 2. lia. }
  assert (Hneed : need_of (Double.norm64 false m e) = 0)
    by (rewrite need_of_norm64 by lia; exact Hq).
  split; [exact Hneed|].
  split; [rewrite round_chance_norm64 by lia; exact Hq|].
  intros Hroll.
  assert (Hr : RollDrop urand (Double.norm64 false m e) = false).
  { unfold RollDrop.
    change (Double.leb (Double.norm64 false m e) Double.d0) with false.
    assert (Hge : Double.leb Double.d100 (Double.norm64 false m e) = false).
    { unfold Double.ltb, Double.d0_005, Double.norm64 in Hlt.
      apply SFltb_finite in Hlt. apply SFleb_finite_false. lia. }
    rewrite Hge. cbv zeta. rewrite Hneed. apply Z.leb_gt.
    unfold scale. lia. }
  split; [exact Hr|].
  intros w killer killed Hw. unfold kill_passes.
  destruct killer; [|reflexivity]. destruct killed; [|reflexivity].
  rewrite Hw, Hc', Hr. apply andb_false_r.
Qed.

(** 0.004 percent. *)
Lemma tiny_chance_never_grants_witness :
  RollDrop low_roll
    (chancePct (load_conf (cfg_chance (S754_finite false 8589935 (-31)))))
  = false.
Proof.
  pose proof (tiny_chance_never_grants low_roll
                (cfg_chance (S754_finite false 8589935 (-31)))
                eq_refl eq_refl eq_refl) as [_ [_ H]].
  apply H. unfold low_roll. lia.
Defined.


(** * Further properties of the module *)

(** ** Initialisation of the table *)

(** X1.  [EnsureTable] is idempotent and never overwrites: after it the row
    exists; a row that existed is kept as it was, with the rest of the
    world; running it again changes nothing. *)
Theorem EnsureTable_idempotent (w : World) :
  db (EnsureTable w) <> None
  /\ (forall r, db w = Some r -> EnsureTable w = w)
  /\ (db w = None -> db (EnsureTable w) = Some fresh_row)
  /\ EnsureTable (EnsureTable w) = EnsureTable w.
Proof.
  unfold EnsureTable. destruct (db w) as [r|] eqn:E.
  - repeat split; try congruence. now rewrite E.
  - repeat split; try discriminate.
Qed.

Lemma EnsureTable_idempotent_witness :
  EnsureTable world_granted = world_granted.
Proof.
  pose proof (EnsureTable_idempotent world_granted) as [_ [H _]].
  exact (H _ eq_refl).
Defined.

(** ** The configuration after a load *)

Lemma SFltb_false_SFleb (a b : spec_float) :
  a <> S754_nan -> b <> S754_nan ->
  SFltb a b = false -> SFleb b a = true.
Proof.
  intros Ha Hb. unfold SFltb, SFleb, SFcompare.
  destruct a as [[|]|[|]| |[|] m e], b as [[|]|[|]| |[|] m' e'];
    try congruence; try reflexivity;
    rewrite (Z.compare_antisym e e');
    fold (Pos.compare m m'); fold (Pos.compare m' m);
    rewrite (Pos.compare_antisym m m');
    destruct (e ?= e'); cbn [CompOpp]; try congruence; try reflexivity;
    destruct (m ?= m')%positive; cbn [CompOpp]; congruence.
Qed.

Lemma to_double_not_nan (f : single) :
  Single.valid f = true -> f <> S754_nan -> Single.to_double f <> S754_nan.
Proof.
  intros Hv Hn. destruct f as [s|s| |s m e]; try discriminate; try congruence.
  rewrite (to_double_norm64 s m e Hv). discriminate.
Qed.

(** X2.  Whatever the options hold, the configuration a load builds has a
    creature entry other than 0, and a chance within [0, 100] unless the
    option is not a number: the two comparisons of the clamp are both false
    for a NaN, which reaches [gConf.chancePct] as it is. *)
Theorem load_conf_ranges (cfg : ConfigMgr) :
  let f := GetOption (opt_Chance cfg) Single.f1 in
  let c := chancePct (load_conf cfg) in
  npcEntry (load_conf cfg) <> 0
  /\ (opt_NpcEntry cfg = Some 0 -> npcEntry (load_conf cfg) = NPC_BARON_GEDDON)
  /\ (f = S754_nan -> c = S754_nan)
  /\ (Single.valid f = true -> f <> S754_nan ->
      Double.leb Double.d0 c = true /\ Double.leb c Double.d100 = true).
Proof.
  cbn zeta. split; [|split; [|split]].
  - unfold load_conf. cbn [npcEntry].
    destruct (GetOption (opt_NpcEntry cfg) NPC_BARON_GEDDON =? 0) eqn:E.
    + discriminate.
    + now apply Z.eqb_neq in E.
  - intros H. unfold load_conf. cbn [npcEntry]. rewrite H. reflexivity.
  - intros H. unfold load_conf. cbn [chancePct]. rewrite H. reflexivity.
  - intros Hv Hn. pose proof (to_double_not_nan _ Hv Hn) as Hc0.
    unfold load_conf. cbn [chancePct].
    set (c0 := Single.to_double (GetOption (opt_Chance cfg) Single.f1)) in *.
    destruct (Double.ltb c0 Double.d0) eqn:E0.
    + split; reflexivity.
    + assert (H0 : Double.leb Double.d0 c0 = true)
        by (apply SFltb_false_SFleb; [assumption | discriminate | exact E0]).
      destruct (Double.ltb Double.d100 c0) eqn:E1.
      * split; reflexivity.
      * split; [exact H0|].
        apply SFltb_false_SFleb; [discriminate | assumption | exact E1].
Qed.

Lemma load_conf_ranges_witness :
  Double.leb Double.d0
    (chancePct (load_conf (cfg_chance (S754_finite false 13107200 (-12)))))
  = true
  /\ Double.leb
       (chancePct (load_conf (cfg_chance (S754_finite false 13107200 (-12)))))
       Double.d100 = true.
Proof.
  pose proof (load_conf_ranges (cfg_chance (S754_finite false 13107200 (-12))))
    as [_ [_ [_ H]]].
  apply H; [reflexivity | discriminate].
Defined.

Lemma above_100_not_below_0 (c : double) :
  Double.leb Double.d100 c = true -> Double.ltb c Double.d0 = false.
Proof. destruct c as [[|]|[|]| |[|] m e]; try discriminate; reflexivity. Qed.

Lemma below_0_not_above_100 (c : double) :
  Double.leb c Double.d0 = true -> Double.ltb Double.d100 c = false.
Proof. destruct c as [[|]|[|]| |[|] m e]; try discriminate; reflexivity. Qed.

(** X3.  The two ends of the chance scale, through a configuration load.  An
    option that is at most 0 (negative values included) gives a roll that
    never passes, so no kill occurrence reaches the insertion; an option that
    is at least 100 gives a roll that always passes, whatever is drawn. *)
Theorem chance_scale_ends (cfg : ConfigMgr) (urand : Z -> Z -> Z) :
  let c0 := Single.to_double (GetOption (opt_Chance cfg) Single.f1) in
  let c := chancePct (load_conf cfg) in
  (Double.leb c0 Double.d0 = true ->
   RollDrop urand c = false
   /\ forall w killer killed,
        gConf w = load_conf cfg -> kill_passes w killer killed urand = false)
  /\ (Double.leb Double.d100 c0 = true -> RollDrop urand c = true).
Proof.
  cbn zeta.
  set (c0 := Single.to_double (GetOption (opt_Chance cfg) Single.f1)).
  assert (Hc : chancePct (load_conf cfg)
               = if Double.ltb Double.d100
                      (if Double.ltb c0 Double.d0 then Double.d0 else c0)
                 then Double.d100
                 else if Double.ltb c0 Double.d0 then Double.d0 else c0)
    by reflexivity.
  split.
  - intros H0.
    assert (Hr : RollDrop urand (chancePct (load_conf cfg)) = false).
    { rewrite Hc. destruct (Double.ltb c0 Double.d0); [reflexivity|].
      rewrite (below_0_not_above_100 c0 H0). unfold RollDrop. now rewrite H0. }
    split; [exact Hr|].
    intros w killer killed Hw. unfold kill_passes.
    destruct killer; [|reflexivity]. destruct killed; [|reflexivity].
    rewrite Hw, Hr. apply andb_false_r.
  - intros H100. rewrite Hc, (above_100_not_below_0 c0 H100).
    destruct (Double.ltb Double.d100 c0); [reflexivity|].
    unfold RollDrop. now rewrite (leb_100_excludes_leb_0 c0 H100), H100.
Qed.

Lemma chance_scale_ends_witness :
  RollDrop (fun _ hi => hi)
    (chancePct (load_conf (cfg_chance (S754_finite false 13107200 (-16)))))
  = true.
Proof.
  pose proof (chance_scale_ends (cfg_chance (S754_finite false 13107200 (-16)))
                (fun _ hi => hi)) as [_ H].
  apply H. reflexivity.
Defined.

Lemma threshold_range_norm64 (m : positive) (e : Z) :
  Single.valid (S754_finite false m e) = true ->
  Double.ltb (Double.norm64 false m e) Double.d100 = true ->
  0 <= need_of (Double.norm64 false m e) <= 10000.
Proof.
  intros Hvm H100.
  pose proof (below_100_exponent m e Hvm H100) as He.
  destruct (single_valid_bounds false m e Hvm) as [Hs [Hlo Hn]].
  pose proof (single_mantissa_bound false m e Hvm) as Hm.
  destruct (norm64_single_exponent m e Hvm _ eq_refl) as [Hu [Hu29 Hmant]].
  rewrite need_of_norm64 by lia.
  assert (Hp : 0 < 2 ^ (- e)) by (apply pow2_pos; lia).
  assert (Hp1 : 2 ^ (1 - e) = 2 * 2 ^ (- e)).
  { replace (1 - e) with (1 + - e) by lia. now rewrite Z.pow_add_r by lia. }
  assert (Hval : Zpos m <= 100 * 2 ^ (- e)).
  { destruct (Z.eq_dec e (-17)) as [->|Hne].
    - unfold Double.ltb, Double.d100, Double.norm64 in H100.
      apply SFltb_finite in H100. rewrite Hmant in H100.
      assert (Hu' : 53 - Zpos (Pos.size m) = 29) by lia.
      rewrite Hu' in H100. change (2 ^ 29) with 536870912 in H100.
      change (2 ^ (- (-17))) with 131072. lia.
    - assert (2 ^ 18 <= 2 ^ (- e)) by (apply Z.pow_le_mono_r; lia).
      change (2 ^ 24) with 16777216 in Hm.
      change (2 ^ 18) with 262144 in *. lia. }
  split.
  - apply Z.div_pos; lia.
  - apply Z.lt_succ_r. apply Z.div_lt_upper_bound; lia.
Qed.

(** X4.  For every chance that a configuration load leaves strictly between
    0 and 100, the threshold the draw is compared with lies in 0..10000: the
    conversion to [uint32] never wraps, and the roll passes in at most all of
    the 10000 equally likely draws. *)
Theorem threshold_range (cfg : ConfigMgr) :
  Single.valid (GetOption (opt_Chance cfg) Single.f1) = true ->
  let c := chancePct (load_conf cfg) in
  Double.ltb Double.d0 c = true -> Double.ltb c Double.d100 = true ->
  0 <= need_of c <= 10000.
Proof.
  intros Hv c H0 H100.
  destruct (configured_chance cfg Double.d100 Hv eq_refl H0 H100)
    as [m [e [Hvm Hc]]].
  fold c in Hc. rewrite Hc in *. now apply threshold_range_norm64.
Qed.

Lemma threshold_range_witness :
  0 <= need_of
         (chancePct (load_conf (cfg_chance (S754_finite false 13107200 (-20)))))
    <= 10000.
Proof.
  apply (threshold_range (cfg_chance (S754_finite false 13107200 (-20))));
    reflexivity.
Defined.

(** ** The in-memory flag and the persisted flag *)

Lemma coherent_same (w w' : World) :
  db w' = db w -> gAlreadyDropped w' = gAlreadyDropped w ->
  coherent w -> coherent w'.
Proof.
  unfold coherent, granted. intros -> ->. trivial.
Qed.

Lemma coherent_kill_phase (killer : option Player) (t : Z) (w : World) :
  name_plain (name_of killer) = true ->
  coherent w -> coherent (PersistDropped_KillPhase killer t w).
Proof.
  intros Hacc [Hdb Hc].
  destruct (PersistDropped_KillPhase_spec killer t w) as [_ [_ [Hrep Hnorep]]].
  cbn zeta in *. destruct (allowRepeat (gConf w)).
  - rewrite Hrep by reflexivity. now split.
  - destruct (Hnorep eq_refl) as [Hd Hrow]. unfold coherent, granted.
    rewrite Hd, Hrow.
    destruct (grant_row_of_plain killer t Hacc) as [r Hg]. rewrite Hg.
    destruct (db w); [|congruence]. cbn.
    rewrite (grant_row_dropped _ _ _ Hg).
    split; [discriminate | reflexivity].
Qed.

Lemma coherent_loot_phase (looter : option Player) (t : Z) (w : World) :
  coherent w -> coherent (PersistDropped_LootPhase looter t w).
Proof.
  intros [Hdb Hc].
  destruct (PersistDropped_LootPhase_spec looter t w) as [_ [_ [Hd Hrow]]].
  cbn zeta in *. split.
  - rewrite Hrow.
    destruct (allowRepeat (gConf w) || is_empty (name_of looter))%bool;
      [assumption|].
    destruct (sent_literal (clean_name (name_of looter))); [|assumption].
    destruct (db w); [discriminate | congruence].
  - now rewrite Hd, granted_loot_phase.
Qed.

Lemma coherent_load (w : World) :
  db w <> None -> coherent (LoadDroppedState w).
Proof.
  intros Hdb. unfold LoadDroppedState, coherent, granted.
  destruct (db w) as [r|] eqn:E; [|congruence].
  cbn. rewrite E. split; [discriminate | reflexivity].
Qed.

Lemma coherent_reset (w : World) : coherent w -> coherent (MaybeResetState w).
Proof.
  intros [Hdb Hc]. unfold MaybeResetState.
  destruct (negb (resetOnStart (gConf w))); [now split|].
  unfold coherent, granted. cbn. destruct (db w); [|congruence].
  split; [discriminate | reflexivity].
Qed.

Lemma coherent_config_load (host : Host) (cfg : ConfigMgr) (w : World) :
  coherent (OnAfterConfigLoad host cfg w).
Proof.
  unfold OnAfterConfigLoad. cbn zeta.
  set (w1 := EnsureTable (set_conf (load_conf cfg) w)).
  assert (H1 : db w1 <> None).
  { unfold w1.
    destruct (EnsureTable_db (set_conf (load_conf cfg) w)) as [r [-> _]].
    discriminate. }
  assert (H2 : db (MaybeResetState w1) <> None).
  { unfold MaybeResetState. destruct (negb (resetOnStart (gConf w1)));
      [assumption|]. cbn. destruct (db w1); [discriminate | congruence]. }
  apply (coherent_same (LoadDroppedState (MaybeResetState w1)));
    try reflexivity.
  now apply coherent_load.
Qed.

(** X5.  A configuration load leaves the row present and the in-memory
    flag equal to the persisted one, from any state; and once that holds,
    every operation of either script keeps it so when the killer it names
    has a plain name (empty, or with ASCII bytes other than NUL and
    backslash as its first 63 bytes).
    (Without the row, a kill-phase grant would set the flag in memory
    only.) *)
Theorem cache_mirrors_store (host : Host) :
  (forall cfg w, coherent (OnAfterConfigLoad host cfg w))
  /\ (forall op w, name_plain (kill_name op) = true ->
        coherent w -> coherent (exec host op w)).
Proof.
  split; [apply coherent_config_load|].
  intros op w Hacc Hw. destruct op; cbn [exec]; cbn [kill_name] in Hacc.
  - destruct Hw as [Hdb Hc]. unfold EnsureTable.
    destruct (db w) as [r|] eqn:E; [|congruence].
    split; [congruence | assumption].
  - apply coherent_load. apply Hw.
  - now apply coherent_reset.
  - now apply coherent_kill_phase.
  - now apply coherent_loot_phase.
  - now apply coherent_kill_phase.
  - exact Hw.
  - exact Hw.
  - destruct l; exact Hw.
  - apply coherent_config_load.
  - destruct (kill_passes w killer killed urand) eqn:E.
    + destruct (TwoPhase_kill_grant host w killer killed t urand E)
        as [cr [_ ->]]. cbn [fst].
      apply (coherent_same
               (PersistDropped_KillPhase killer t
                  (emit (CallAddItem (MakeLootStoreItem ITEM_TALISMAN)) w)));
        try reflexivity.
      apply coherent_kill_phase; [exact Hacc | exact Hw].
    + now rewrite (TwoPhase_kill_skip host w killer killed t urand E).
  - unfold TwoPhase.OnPlayerLootItem.
    destruct looter; [|exact Hw]. destruct item as [it|]; [|exact Hw].
    destruct (negb (enable (gConf w))); [exact Hw|].
    destruct (negb (item_entry it =? ITEM_TALISMAN)); [exact Hw|].
    apply coherent_loot_phase. exact Hw.
  - destruct (kill_passes w killer killed urand) eqn:E.
    + destruct (SinglePhase_kill_grant host w killer killed t urand E)
        as [cr [_ ->]]. cbn [fst].
      apply (coherent_same
               (PersistDropped_KillPhase killer t
                  (emit (CallAddItem (MakeLootStoreItem ITEM_TALISMAN)) w)));
        try reflexivity.
      apply coherent_kill_phase; [exact Hacc | exact Hw].
    + now rewrite (SinglePhase_kill_skip host w killer killed t urand E).
Qed.

Lemma cache_mirrors_store_witness :
  coherent (exec sample_host
              (CallOnPlayerCreatureKill (Some alice) (Some geddon) 1700000000
                 low_roll)
              world_ready).
Proof.
  apply (proj2 (cache_mirrors_store sample_host)).
  - reflexivity.
  - split; [discriminate | reflexivity].
Defined.

(** A killer whose name holds a NUL byte: the grant sets the flag in memory
    and leaves the row as it was. *)
Example grant_with_nul_name :
  let w' := exec sample_host
              (CallOnPlayerCreatureKill (Some mallory) (Some geddon)
                 1700000000 low_roll) world_ready in
  coherent world_ready
  /\ name_plain (kill_name
                      (CallOnPlayerCreatureKill (Some mallory) (Some geddon)
                         1700000000 low_roll)) = false
  /\ gAlreadyDropped w' = true /\ granted w' = false /\ ~ coherent w'.
Proof.
  cbn zeta. split; [split; [discriminate | reflexivity]|].
  split; [reflexivity|]. split; [reflexivity|]. split; [reflexivity|].
  intros [_ H]. vm_compute in H. discriminate.
Qed.

(** A world without the row: the grant closes the gate in memory only. *)
Example grant_without_row :
  let w := fresh_process None in
  let w' := PersistDropped_KillPhase (Some alice) 1700000000 w in
  gAlreadyDropped w' = true /\ granted w' = false.
Proof. split; reflexivity. Qed.

(** ** Kill occurrences *)

Lemma kill_passes_candidate (w : World) (killer : option Player)
    (killed : option Creature) (urand : Z -> Z -> Z) :
  kill_passes w killer killed urand
  = (kill_candidate w killer killed urand
     && negb (negb (allowRepeat (gConf w)) && gAlreadyDropped w))%bool.
Proof.
  unfold kill_passes, kill_candidate.
  destruct killer; [|reflexivity]. destruct killed; [|reflexivity].
  destruct (enable (gConf w)), (entry c =? npcEntry (gConf w)),
    (negb (negb (allowRepeat (gConf w)) && gAlreadyDropped w)),
    (negb (LootHasItem (Some (loot c)) ITEM_TALISMAN)),
    (RollDrop urand (chancePct (gConf w))); reflexivity.
Qed.

(** X6.  Repeat mode.  With [allowRepeat] set the gate never blocks: a kill
    occurrence inserts exactly when the module is enabled, the creature is
    the target, its loot does not hold the item yet and the roll passes,
    whatever the in-memory flag says; and no kill occurrence changes the
    flag or the row (they record nothing).  Both scripts. *)
Theorem repeat_mode_kills (host : Host) (w : World) (killer : option Player)
    (killed : option Creature) (t : Z) (urand : Z -> Z -> Z) :
  allowRepeat (gConf w) = true ->
  let r2 := TwoPhase.OnPlayerCreatureKill host w killer killed t urand in
  let r1 := SinglePhase.OnPlayerCreatureKill host w killer killed t urand in
  kill_passes w killer killed urand = kill_candidate w killer killed urand
  /\ db (fst r2) = db w /\ gAlreadyDropped (fst r2) = gAlreadyDropped w
  /\ db (fst r1) = db w /\ gAlreadyDropped (fst r1) = gAlreadyDropped w
  /\ insertions (fst r2)
     = (if kill_candidate w killer killed urand then S (insertions w)
        else insertions w)
  /\ insertions (fst r1) = insertions (fst r2)
  /\ snd r1 = snd r2
  /\ (kill_candidate w killer killed urand = true ->
      exists cr, killed = Some cr /\ snd r2 = Some (with_talisman host cr)).
Proof.
  intros Hrep. cbn zeta.
  assert (Hk : kill_passes w killer killed urand
               = kill_candidate w killer killed urand).
  { rewrite kill_passes_candidate, Hrep. cbn [negb andb].
    apply andb_true_r. }
  split; [exact Hk|]. rewrite <- Hk.
  destruct (kill_passes w killer killed urand) eqn:E.
  - destruct (TwoPhase_kill_grant host w killer killed t urand E)
      as [cr [Hcr ->]].
    destruct (SinglePhase_kill_grant host w killer killed t urand E)
      as [cr' [Hcr' ->]].
    assert (cr' = cr) by congruence. subst cr'.
    cbn zeta. cbn [fst snd].
    unfold SinglePhase.PersistDropped, PersistDropped_KillPhase.
    cbn [gConf emit]. rewrite Hrep.
    repeat split. intros _. exists cr. split; [assumption | reflexivity].
  - rewrite (TwoPhase_kill_skip host w killer killed t urand E).
    rewrite (SinglePhase_kill_skip host w killer killed t urand E).
    repeat split. discriminate.
Qed.

Lemma repeat_mode_kills_witness :
  insertions
    (fst (TwoPhase.OnPlayerCreatureKill sample_host world_repeat_granted
            (Some bob) (Some geddon) 1700000100 low_roll))
  = 1%nat.
Proof.
  pose proof (repeat_mode_kills sample_host world_repeat_granted (Some bob)
                (Some geddon) 1700000100 low_roll eq_refl)
    as [_ [_ [_ [_ [_ [H _]]]]]].
  exact H.
Defined.

(** X7.  What the handlers ignore.  A kill occurrence with the module
    disabled, a null killer, a null creature or a creature whose entry is not
    the configured one changes nothing, in either script; a loot occurrence
    with the module disabled, a null looter, a null item or an item other
    than the reward changes nothing. *)
Theorem ignored_occurrences (host : Host) (w : World) :
  (forall killer killed t urand,
      enable (gConf w) = false \/ killer = None \/ killed = None
      \/ (exists cr, killed = Some cr /\ entry cr <> npcEntry (gConf w)) ->
      TwoPhase.OnPlayerCreatureKill host w killer killed t urand = (w, killed)
      /\ SinglePhase.OnPlayerCreatureKill host w killer killed t urand
         = (w, killed))
  /\ (forall looter item lootGuid t,
      enable (gConf w) = false \/ looter = None \/ item = None
      \/ (exists it, item = Some it /\ item_entry it <> ITEM_TALISMAN) ->
      TwoPhase.OnPlayerLootItem host w looter item lootGuid t = w).
Proof.
  split.
  - intros killer killed t urand H.
    assert (E : kill_passes w killer killed urand = false).
    { unfold kill_passes. destruct killer; [|reflexivity].
      destruct killed as [cr|]; [|reflexivity].
      destruct H as [H|[H|[H|[cr' [Hcr Hne]]]]]; try discriminate.
      - now rewrite H.
      - inversion Hcr; subst cr'. apply Z.eqb_neq in Hne. rewrite Hne.
        now rewrite andb_false_r. }
    split; [now apply TwoPhase_kill_skip | now apply SinglePhase_kill_skip].
  - intros looter item lootGuid t H. unfold TwoPhase.OnPlayerLootItem.
    destruct looter; [|reflexivity]. destruct item as [it|]; [|reflexivity].
    destruct H as [H|[H|[H|[it' [Hit Hne]]]]]; try discriminate.
    + now rewrite H.
    + inversion Hit; subst it'. apply Z.eqb_neq in Hne. rewrite Hne.
      destruct (negb (enable (gConf w))); reflexivity.
Qed.

Lemma ignored_occurrences_witness :
  TwoPhase.OnPlayerCreatureKill sample_host world_ready (Some alice)
    (Some {| entry := 11502; creature_name := "Ragnaros";
             loot := {| items := []; quest_items := [] |} |})
    1700000000 low_roll
  = (world_ready,
     Some {| entry := 11502; creature_name := "Ragnaros";
             loot := {| items := []; quest_items := [] |} |}).
Proof.
  apply (proj1 (ignored_occurrences sample_host world_ready)).
  right. right. right. eexists. split; [reflexivity | discriminate].
Defined.

Lemma grant_row_empty (killer : option Player) (t : Z) :
  is_empty (name_of killer) = true ->
  grant_row killer t
  = Some {| dropped := 1; last_drop_time := now_of t; last_killer := None |}.
Proof. unfold grant_row. cbn zeta. now intros ->. Qed.

Lemma grant_row_plain (killer : option Player) (t : Z) :
  is_empty (name_of killer) = false ->
  plain (clean_name (name_of killer)) = true ->
  grant_row killer t
  = Some {| dropped := 1; last_drop_time := now_of t;
            last_killer := Some (clean_name (name_of killer)) |}.
Proof.
  unfold grant_row. cbn zeta. intros -> Hp.
  now rewrite (sent_literal_plain _ Hp).
Qed.

(** X8.  What a grant leaves behind when the gate is in use
    ([allowRepeat = false]).  The corpse is the old one after one call of
    [Loot::AddItem] with the store item of [MakeLootStoreItem] (item 17782,
    one unit, no quest requirement); the in-memory flag is set; the row,
    when present and when the statement stands, holds what the statement
    says: [dropped = 1], the time of the kill as a 64-bit value and the
    killer, which is NULL for an empty name and, for a name whose first 63
    bytes are ASCII bytes other than NUL and backslash, those bytes after
    the clean-up of quotes.  The two-phase script logs one line; the single-phase script
    also announces the killer and the creature by name. *)
Theorem grant_effect (host : Host) (w : World) (p : Player) (cr : Creature)
    (t : Z) (urand : Z -> Z -> Z) :
  allowRepeat (gConf w) = false ->
  kill_passes w (Some p) (Some cr) urand = true ->
  let r2 := TwoPhase.OnPlayerCreatureKill host w (Some p) (Some cr) t urand in
  let r1 := SinglePhase.OnPlayerCreatureKill host w (Some p) (Some cr) t urand in
  let item := MakeLootStoreItem ITEM_TALISMAN in
  snd r2 = Some (with_talisman host cr)
  /\ snd r1 = Some (with_talisman host cr)
  /\ (lsi_itemid item = 17782 /\ lsi_mincount item = 1 /\ lsi_maxcount item = 1
      /\ lsi_needs_quest item = false)
  /\ db (fst r2) = write_row (grant_row (Some p) t) (db w)
  /\ (is_empty (player_name p) = true ->
      grant_row (Some p) t
      = Some {| dropped := 1; last_drop_time := now_of t;
                last_killer := None |})
  /\ (is_empty (player_name p) = false ->
      plain (clean_name (player_name p)) = true ->
      grant_row (Some p) t
      = Some {| dropped := 1; last_drop_time := now_of t;
                last_killer := Some (clean_name (player_name p)) |})
  /\ db (fst r1) = db (fst r2)
  /\ gAlreadyDropped (fst r2) = true /\ gAlreadyDropped (fst r1) = true
  /\ gConf (fst r2) = gConf w /\ gConf (fst r1) = gConf w
  /\ effects (fst r2)
     = LogInfo (LogAdded ITEM_TALISMAN (creature_name cr) false)
       :: CallAddItem item :: effects w
  /\ effects (fst r1)
     = LogInfo (LogAdded ITEM_TALISMAN (creature_name cr) false)
       :: SendGlobalMessage
            (player_name p ++ " has defeated " ++ creature_name cr
             ++ " and claimed the legendary Talisman of Binding Shard!")
       :: CallAddItem item :: effects w.
Proof.
  intros Hrep E. cbn zeta.
  destruct (TwoPhase_kill_grant host w (Some p) (Some cr) t urand E)
    as [cr2 [Hcr2 ->]].
  destruct (SinglePhase_kill_grant host w (Some p) (Some cr) t urand E)
    as [cr1 [Hcr1 ->]].
  inversion Hcr2; subst cr2. inversion Hcr1; subst cr1.
  cbn zeta. cbn [fst snd].
  change (SinglePhase.PersistDropped (Some p) t)
    with (PersistDropped_KillPhase (Some p) t).
  set (w1 := emit (CallAddItem (MakeLootStoreItem ITEM_TALISMAN)) w).
  destruct (PersistDropped_KillPhase_spec (Some p) t w1) as (Hc2 & He2 & _ & Hn2).
  destruct (Hn2 Hrep) as [Hd2 Hdb2].
  cbn zeta in *. unfold SinglePhase.AnnounceDrop.
  cbn [db emit gConf effects gAlreadyDropped].
  rewrite Hc2, He2, Hd2, Hdb2. unfold w1. cbn [db emit gConf effects].
  rewrite Hrep.
  split; [reflexivity|]. split; [reflexivity|].
  split; [repeat split|].
  split; [reflexivity|].
  split; [apply (grant_row_empty (Some p))|].
  split; [apply (grant_row_plain (Some p))|].
  repeat split.
Qed.

Lemma grant_effect_witness :
  db (fst (TwoPhase.OnPlayerCreatureKill sample_host world_ready (Some alice)
             (Some geddon) 1700000000 low_roll))
  = Some {| dropped := 1; last_drop_time := 1700000000;
            last_killer := Some "Alice"%string |}.
Proof.
  pose proof (grant_effect sample_host world_ready alice geddon 1700000000
                low_roll eq_refl eq_refl)
    as [_ [_ [_ [H _]]]].
  exact H.
Defined.

(** ** Loot occurrences *)

(** X9.  A loot occurrence never moves the gate: for every input, the
    configuration, the in-memory flag, the persisted flag and the count of
    insertions are as before, so every later kill occurrence is decided as
    it would have been without it. *)
Theorem loot_leaves_gate (host : Host) (w : World) (looter : option Player)
    (item : option Item) (lootGuid : ObjectGuid) (t : Z) :
  let w' := TwoPhase.OnPlayerLootItem host w looter item lootGuid t in
  gConf w' = gConf w
  /\ gAlreadyDropped w' = gAlreadyDropped w
  /\ granted w' = granted w
  /\ insertions w' = insertions w
  /\ (forall killer killed urand,
         kill_passes w' killer killed urand
         = kill_passes w killer killed urand).
Proof.
  cbn zeta.
  assert (H : gConf (TwoPhase.OnPlayerLootItem host w looter item lootGuid t)
              = gConf w
              /\ gAlreadyDropped
                   (TwoPhase.OnPlayerLootItem host w looter item lootGuid t)
                 = gAlreadyDropped w
              /\ granted (TwoPhase.OnPlayerLootItem host w looter item lootGuid t)
                 = granted w
              /\ insertions
                   (TwoPhase.OnPlayerLootItem host w looter item lootGuid t)
                 = insertions w).
  { unfold TwoPhase.OnPlayerLootItem.
    destruct looter as [p|]; [|repeat split].
    destruct item as [it|]; [|repeat split].
    destruct (negb (enable (gConf w))); [repeat split|].
    destruct (negb (item_entry it =? ITEM_TALISMAN)); [repeat split|].
    set (w1 := TwoPhase.AnnounceDrop_PlayerLoot host (Some p) lootGuid w).
    destruct (PersistDropped_LootPhase_spec (Some p) t w1)
      as [Hc [He [Hd _]]].
    cbn zeta in *. rewrite granted_loot_phase.
    unfold insertions. rewrite Hc, He, Hd. repeat split. }
  destruct H as [Hc [Hd [Hg Hi]]].
  repeat split; try assumption.
  intros killer killed urand. unfold kill_passes. now rewrite Hc, Hd.
Qed.

(** ** Configuration loads *)

Lemma config_load_state (host : Host) (cfg : ConfigMgr) (w : World) :
  let w' := OnAfterConfigLoad host cfg w in
  gConf w' = load_conf cfg
  /\ db w' = Some (if resetOnStart (load_conf cfg) then fresh_row
                   else match db w with
                        | Some r => r
                        | None => fresh_row
                        end)
  /\ gAlreadyDropped w' = granted w'
  /\ insertions w' = insertions w.
Proof.
  cbn zeta. unfold OnAfterConfigLoad. cbn zeta.
  set (w0 := set_conf (load_conf cfg) w).
  destruct (EnsureTable_frame w0) as [Hc1 [_ He1]].
  destruct (EnsureTable_db w0) as [r [Hr [Hsome Hnone]]].
  assert (Hrow : r = match db w with Some r0 => r0 | None => fresh_row end).
  { change (db w0) with (db w) in *. destruct (db w) as [r0|].
    - now apply Hsome.
    - now apply Hnone. }
  unfold MaybeResetState. rewrite Hc1.
  change (gConf w0) with (load_conf cfg).
  unfold insertions.
  destruct (resetOnStart (load_conf cfg)); cbn [negb].
  - unfold LoadDroppedState, sql_update, store_dropped, emit, set_db, granted.
    cbn [db gAlreadyDropped gConf effects]. rewrite Hr, Hc1, He1. cbn.
    repeat split.
  - unfold LoadDroppedState, granted. rewrite Hr. cbn. rewrite Hr, Hc1, He1.
    rewrite <- Hrow. repeat split.
Qed.

(** X10.  A configuration load without reset keeps the row it finds, field
    for field (it creates the initial row when there is none), replaces the
    configuration by the one the options give, sets the in-memory flag to
    the persisted flag and inserts nothing. *)
Theorem config_load_keeps_row (host : Host) (cfg : ConfigMgr) (w : World) :
  GetOption (opt_ResetOnStartup cfg) false = false ->
  let w' := OnAfterConfigLoad host cfg w in
  gConf w' = load_conf cfg
  /\ (forall r, db w = Some r -> db w' = Some r)
  /\ (db w = None -> db w' = Some fresh_row)
  /\ gAlreadyDropped w' = granted w'
  /\ granted w' = granted w
  /\ insertions w' = insertions w.
Proof.
  intros Hres. cbn zeta.
  destruct (config_load_state host cfg w) as [Hc [Hdb [Hd Hi]]].
  cbn zeta in *.
  assert (Hr : resetOnStart (load_conf cfg) = false) by exact Hres.
  rewrite Hr in Hdb.
  split; [exact Hc|]. split; [|split; [|split; [exact Hd|split; [|exact Hi]]]].
  - intros r E. now rewrite Hdb, E.
  - intros E. now rewrite Hdb, E.
  - unfold granted. rewrite Hdb. destruct (db w); reflexivity.
Qed.

Lemma config_load_keeps_row_witness :
  db (OnAfterConfigLoad sample_host cfg_plain world_granted)
  = db world_granted.
Proof.
  pose proof (config_load_keeps_row sample_host cfg_plain world_granted
                eq_refl) as [_ [H _]].
  exact (H _ eq_refl).
Defined.

(** X11.  The gate survives a restart.  Whatever the globals hold (a process
    that has just started has the flag false), when the row says granted and
    the options ask neither for a reset nor for repeats, a configuration load
    closes the gate in memory and no later kill occurrence inserts, in either
    script. *)
Theorem gate_survives_restart (host : Host) (cfg : ConfigMgr) (w : World) :
  granted w = true ->
  GetOption (opt_ResetOnStartup cfg) false = false ->
  GetOption (opt_AllowRepeat cfg) false = false ->
  let w' := OnAfterConfigLoad host cfg w in
  gAlreadyDropped w' = true
  /\ forall ks s,
       world s = w' ->
       world (run_kills (TwoPhase.OnPlayerCreatureKill host) s ks) = w'
       /\ world (run_kills (SinglePhase.OnPlayerCreatureKill host) s ks) = w'.
Proof.
  intros Hg Hres Hrep. cbn zeta.
  destruct (config_load_state host cfg w) as [Hc [Hdb [Hd _]]].
  cbn zeta in *.
  assert (Hr0 : resetOnStart (load_conf cfg) = false) by exact Hres.
  rewrite Hr0 in Hdb.
  assert (Hflag : gAlreadyDropped (OnAfterConfigLoad host cfg w) = true).
  { rewrite Hd. unfold granted in *. rewrite Hdb.
    destruct (db w); [exact Hg | discriminate]. }
  split; [exact Hflag|].
  intros ks s Hs.
  assert (Hr : allowRepeat (gConf (world s)) = false)
    by (rewrite Hs, Hc; exact Hrep).
  rewrite <- Hs in Hflag.
  split; rewrite <- Hs; apply run_closed;
    auto using TwoPhase_gated, SinglePhase_gated.
Qed.

Lemma gate_survives_restart_witness :
  gAlreadyDropped
    (OnAfterConfigLoad sample_host cfg_plain (fresh_process (db world_granted)))
  = true.
Proof.
  apply (gate_survives_restart sample_host cfg_plain
           (fresh_process (db world_granted))); reflexivity.
Defined.

(** X12.  A reset reopens the gate.  After a configuration load that asks for
    the reset, a kill occurrence is decided by the other conditions alone
    (module enabled, target entry, no reward item in the loot yet, roll):
    the earlier grant no longer counts. *)
Theorem reset_reopens_gate (host : Host) (cfg : ConfigMgr) (w : World)
    (killer : option Player) (killed : option Creature) (urand : Z -> Z -> Z) :
  opt_ResetOnStartup cfg = Some true ->
  let w' := OnAfterConfigLoad host cfg w in
  kill_passes w' killer killed urand = kill_candidate w' killer killed urand.
Proof.
  intros Hres. cbn zeta.
  destruct (config_load_state host cfg w) as [Hc [Hdb [Hd _]]].
  cbn zeta in *.
  assert (Hr : resetOnStart (load_conf cfg) = true)
    by (unfold load_conf; cbn; now rewrite Hres).
  rewrite Hr in Hdb.
  rewrite kill_passes_candidate, Hd. unfold granted. rewrite Hdb. cbn.
  rewrite andb_false_r. cbn. apply andb_true_r.
Qed.

Lemma reset_reopens_gate_witness :
  kill_passes (OnAfterConfigLoad sample_host cfg_reset world_granted)
    (Some bob) (Some geddon) (fun _ hi => hi)
  = kill_candidate (OnAfterConfigLoad sample_host cfg_reset world_granted)
      (Some bob) (Some geddon) (fun _ hi => hi).
Proof.
  apply (reset_reopens_gate sample_host cfg_reset world_granted (Some bob)
           (Some geddon) (fun _ hi => hi)).
  reflexivity.
Defined.

(** X13.  Loading the same options twice is loading them once, as far as the
    gate goes: configuration, row and in-memory flag after the second load
    are those after the first. *)
Theorem config_reload_idempotent (host : Host) (cfg : ConfigMgr) (w : World) :
  let w1 := OnAfterConfigLoad host cfg w in
  let w2 := OnAfterConfigLoad host cfg w1 in
  gConf w2 = gConf w1 /\ db w2 = db w1
  /\ gAlreadyDropped w2 = gAlreadyDropped w1.
Proof.
  cbn zeta.
  destruct (config_load_state host cfg w) as [Hc1 [Hdb1 [Hd1 _]]].
  destruct (config_load_state host cfg (OnAfterConfigLoad host cfg w))
    as [Hc2 [Hdb2 [Hd2 _]]].
  cbn zeta in *.
  assert (Hdb : db (OnAfterConfigLoad host cfg (OnAfterConfigLoad host cfg w))
                = db (OnAfterConfigLoad host cfg w)).
  { rewrite Hdb2, Hdb1. destruct (resetOnStart (load_conf cfg)); reflexivity. }
  split; [congruence|]. split; [exact Hdb|].
  rewrite Hd2, Hd1. unfold granted. now rewrite Hdb.
Qed.


(** ** The two scripts side by side *)

Lemma kill_step_related (host : Host) (s1 s2 : Server) (k : KillOcc) :
  corpses s1 = corpses s2 -> same_but_announcements (world s1) (world s2) ->
  corpses (kill_step (SinglePhase.OnPlayerCreatureKill host) s1 k)
  = corpses (kill_step (TwoPhase.OnPlayerCreatureKill host) s2 k)
  /\ same_but_announcements
       (world (kill_step (SinglePhase.OnPlayerCreatureKill host) s1 k))
       (world (kill_step (TwoPhase.OnPlayerCreatureKill host) s2 k)).
Proof.
  intros Hcs [Hc [Hd [Hdb He]]]. unfold kill_step, deref. rewrite Hcs.
  set (killed := match ko_killed k with
                 | Some i => nth_error (corpses s2) i
                 | None => None
                 end).
  assert (Hp : kill_passes (world s1) (ko_killer k) killed (ko_urand k)
               = kill_passes (world s2) (ko_killer k) killed (ko_urand k))
    by (unfold kill_passes; now rewrite Hc, Hd).
  destruct (kill_passes (world s2) (ko_killer k) killed (ko_urand k)) eqn:E.
  - destruct (SinglePhase_kill_grant host (world s1) (ko_killer k) killed
                (ko_time k) (ko_urand k) Hp) as [cr1 [Hk1 ->]].
    destruct (TwoPhase_kill_grant host (world s2) (ko_killer k) killed
                (ko_time k) (ko_urand k) E) as [cr2 [Hk2 ->]].
    assert (cr1 = cr2) by congruence. subst cr1.
    cbn zeta. cbn [world corpses]. split; [reflexivity|].
    unfold same_but_announcements, SinglePhase.AnnounceDrop,
      SinglePhase.PersistDropped, PersistDropped_KillPhase.
    cbn [gConf emit]. rewrite Hc.
    destruct (allowRepeat (gConf (world s2))); cbn.
    + rewrite Hc, Hd, Hdb, He. repeat split.
    + destruct (is_empty (name_of (ko_killer k)));
        [cbn; rewrite Hc, Hdb, He; repeat split|].
      unfold sql_update_named.
      destruct (sent_literal (clean_name (name_of (ko_killer k)))); cbn;
        rewrite Hc, Hdb, He; repeat split.
  - rewrite (SinglePhase_kill_skip host (world s1) (ko_killer k) killed
               (ko_time k) (ko_urand k) Hp).
    rewrite (TwoPhase_kill_skip host (world s2) (ko_killer k) killed
               (ko_time k) (ko_urand k) E).
    cbn [world corpses]. split; [reflexivity|]. repeat split; assumption.
Qed.

(** X14.  Over every run of kill occurrences from the same server, the two
    scripts leave the same corpses, the same configuration, the same row and
    the same in-memory flag, and make the same calls and log lines: they
    differ in the announcements only. *)
Theorem scripts_agree_on_kills (host : Host) (ks : list KillOcc) (s : Server) :
  let s1 := run_kills (SinglePhase.OnPlayerCreatureKill host) s ks in
  let s2 := run_kills (TwoPhase.OnPlayerCreatureKill host) s ks in
  corpses s1 = corpses s2
  /\ same_but_announcements (world s1) (world s2)
  /\ insertions (world s1) = insertions (world s2).
Proof.
  cbn zeta.
  assert (H : forall s1 s2,
             corpses s1 = corpses s2 ->
             same_but_announcements (world s1) (world s2) ->
             corpses (run_kills (SinglePhase.OnPlayerCreatureKill host) s1 ks)
             = corpses (run_kills (TwoPhase.OnPlayerCreatureKill host) s2 ks)
             /\ same_but_announcements
                  (world (run_kills (SinglePhase.OnPlayerCreatureKill host) s1 ks))
                  (world (run_kills (TwoPhase.OnPlayerCreatureKill host) s2 ks))).
  { induction ks as [|k ks IH]; intros s1 s2 Hcs Hw; [now split|].
    unfold run_kills in *. cbn [fold_left].
    destruct (kill_step_related host s1 s2 k Hcs Hw) as [Hcs' Hw'].
    now apply IH. }
  destruct (H s s eq_refl) as [Hcs Hw]; [repeat split|].
  split; [exact Hcs|]. split; [exact Hw|].
  destruct Hw as [_ [_ [_ He]]]. unfold insertions.
  assert (Hf : forall es, filter is_talisman_insert es
                          = filter is_talisman_insert (without_broadcasts es)).
  { induction es as [|[it|m|l] es IHes]; cbn; try assumption;
      try (destruct (lsi_itemid it =? ITEM_TALISMAN)); now rewrite ?IHes. }
  now rewrite Hf, He, <- Hf.
Qed.

(** ** The guard against a second insertion *)

Lemma push_back_adds_item : adds_item sample_host.
Proof.
  intros it l. unfold sample_host, push_back, LootHasItem. cbn [Loot_AddItem].
  destruct (lsi_needs_quest it); cbn [items quest_items];
    rewrite existsb_app; cbn [existsb itemid]; rewrite Z.eqb_refl;
    rewrite ?orb_true_r; [destruct (existsb _ (items l))|]; reflexivity.
Qed.

(** X15.  With a host whose [Loot::AddItem] leaves the item in the loot, the
    corpse a grant returns is never given a second reward item: every later
    kill occurrence on it, in any state of the module (repeat mode included)
    and in either script, changes nothing. *)
Theorem granted_corpse_is_final (host : Host) (w : World)
    (killer : option Player) (cr : Creature) (t : Z) (urand : Z -> Z -> Z) :
  adds_item host ->
  kill_passes w killer (Some cr) urand = true ->
  let cr' := snd (TwoPhase.OnPlayerCreatureKill host w killer (Some cr) t urand) in
  cr' = Some (with_talisman host cr)
  /\ cr' = snd (SinglePhase.OnPlayerCreatureKill host w killer (Some cr) t urand)
  /\ forall w2 killer2 t2 urand2,
       TwoPhase.OnPlayerCreatureKill host w2 killer2 cr' t2 urand2 = (w2, cr')
       /\ SinglePhase.OnPlayerCreatureKill host w2 killer2 cr' t2 urand2
          = (w2, cr').
Proof.
  intros Hhost E. cbn zeta.
  destruct (TwoPhase_kill_grant host w killer (Some cr) t urand E)
    as [cr2 [Hk2 ->]].
  destruct (SinglePhase_kill_grant host w killer (Some cr) t urand E)
    as [cr1 [Hk1 ->]].
  inversion Hk2; subst cr2. inversion Hk1; subst cr1. cbn [snd].
  split; [reflexivity|]. split; [reflexivity|].
  intros w2 killer2 t2 urand2.
  assert (Hskip : kill_passes w2 killer2 (Some (with_talisman host cr)) urand2
                  = false).
  { apply kill_passes_has_item. unfold with_talisman. cbn [loot].
    exact (Hhost (MakeLootStoreItem ITEM_TALISMAN) (loot cr)). }
  split; [now apply TwoPhase_kill_skip | now apply SinglePhase_kill_skip].
Qed.

Lemma granted_corpse_is_final_witness :
  snd (TwoPhase.OnPlayerCreatureKill sample_host world_repeat (Some alice)
         (Some geddon) 1700000000 low_roll)
  = Some (with_talisman sample_host geddon).
Proof.
  apply (granted_corpse_is_final sample_host world_repeat (Some alice) geddon
           1700000000 low_roll push_back_adds_item eq_refl).
Defined.

(** ** Names and rows *)



Lemma clean_quotes_id (s : string) :
  quote_free s = true -> clean_quotes s = s.
Proof.
  induction s as [|ch s IH]; [reflexivity|]. cbn [clean_quotes quote_free].
  intros H. apply andb_true_iff in H. destruct H as [Hq Hs].
  apply negb_true_iff in Hq. now rewrite (clean_char_keeps ch Hq), IH.
Qed.

Lemma resize63_id (s : string) :
  (String.length s <= 63)%nat -> resize63 s = s.
Proof.
  intros H. unfold resize63.
  destruct (63 <? String.length s)%nat eqn:E; [|reflexivity].
  apply Nat.ltb_lt in E. lia.
Qed.

(** X16.  The clean-up of names.  A name of at most 63 bytes without
    apostrophe or quotation mark is stored as it is; the cleaned name never
    holds either character; and cleaning a cleaned name changes nothing. *)
Theorem clean_name_fixpoints (name : string) :
  quote_free (clean_name name) = true
  /\ clean_name (clean_name name) = clean_name name
  /\ ((String.length name <= 63)%nat -> quote_free name = true ->
      clean_name name = name).
Proof.
  assert (Hq : quote_free (clean_name name) = true)
    by apply clean_quotes_quote_free.
  assert (Hid : forall s, (String.length s <= 63)%nat -> quote_free s = true ->
                          clean_name s = s).
  { intros s Hl Hs. unfold clean_name. now rewrite resize63_id, clean_quotes_id. }
  split; [exact Hq|]. split; [|apply Hid].
  apply Hid; [|exact Hq]. rewrite clean_name_length. lia.
Qed.

Lemma clean_name_fixpoints_witness : clean_name "Alice" = "Alice"%string.
Proof.
  apply (clean_name_fixpoints "Alice"); [cbn; lia | reflexivity].
Defined.

Lemma now_of_range (t : Z) : 0 <= now_of t < 2 ^ 64.
Proof. unfold now_of. apply Z.mod_pos_bound. reflexivity. Qed.

Lemma grant_row_ok (killer : option Player) (t : Z) (r : Row) :
  grant_row killer t = Some r -> row_ok r.
Proof.
  unfold row_ok, grant_row. cbn zeta.
  destruct (is_empty (name_of killer)) eqn:E.
  - intros H. inversion H. cbn [dropped last_drop_time last_killer].
    split; [now right|]. split; [apply now_of_range|]. discriminate.
  - destruct (sent_literal (clean_name (name_of killer))) as [stored|] eqn:Hs;
      [|discriminate].
    intros H. inversion H. cbn [dropped last_drop_time last_killer].
    split; [now right|]. split; [apply now_of_range|].
    intros s Hsome. inversion Hsome; subst s.
    now apply (stored_value_ok (name_of killer)).
Qed.

Lemma db_ok_kill_phase (killer : option Player) (t : Z) (w : World) :
  db_ok w -> db_ok (PersistDropped_KillPhase killer t w).
Proof.
  intros Hw r.
  destruct (PersistDropped_KillPhase_spec killer t w) as [_ [_ [Hrep Hnorep]]].
  cbn zeta in *. destruct (allowRepeat (gConf w)).
  - rewrite Hrep by reflexivity. apply Hw.
  - destruct (Hnorep eq_refl) as [_ ->].
    destruct (grant_row killer t) as [r'|] eqn:Hg; cbn [write_row];
      [|apply Hw].
    destruct (db w); [|discriminate].
    cbn. intros H. inversion H; subst r. apply (grant_row_ok killer t _ Hg).
Qed.

Lemma db_ok_loot_phase (looter : option Player) (t : Z) (w : World) :
  db_ok w -> db_ok (PersistDropped_LootPhase looter t w).
Proof.
  intros Hw r.
  destruct (PersistDropped_LootPhase_spec looter t w) as [_ [_ [_ ->]]].
  destruct (allowRepeat (gConf w)); cbn [orb]; [apply Hw|].
  destruct (is_empty (name_of looter)) eqn:E; [apply Hw|].
  destruct (sent_literal (clean_name (name_of looter))) as [stored|] eqn:Hs;
    [|apply Hw].
  destruct (db w) as [r0|] eqn:E0; [|discriminate].
  cbn. intros H. inversion H. clear H.
  destruct (Hw r0 E0) as [Hd _].
  unfold row_ok. cbn [dropped last_drop_time last_killer].
  split; [exact Hd|]. split; [apply now_of_range|].
  intros s Hsome. inversion Hsome; subst s.
  now apply (stored_value_ok (name_of looter)).
Qed.

Lemma fresh_row_ok : row_ok fresh_row.
Proof.
  unfold row_ok, fresh_row. cbn. split; [now left|]. split; [lia|].
  discriminate.
Qed.

Lemma db_ok_same (w w' : World) : db w' = db w -> db_ok w -> db_ok w'.
Proof. unfold db_ok. now intros ->. Qed.

Lemma db_ok_reset (w : World) : db_ok w -> db_ok (MaybeResetState w).
Proof.
  intros Hw. unfold MaybeResetState.
  destruct (negb (resetOnStart (gConf w))); [exact Hw|].
  intros r. cbn. destruct (db w); [|discriminate].
  cbn. intros H. inversion H. apply fresh_row_ok.
Qed.

Lemma db_ok_ensure (w : World) : db_ok w -> db_ok (EnsureTable w).
Proof.
  intros Hw r. destruct (EnsureTable_db w) as [r' [-> [Hsome Hnone]]].
  intros H. inversion H; subst r'. destruct (db w) as [r0|] eqn:E.
  - rewrite (Hsome r0 eq_refl). now apply Hw.
  - rewrite (Hnone eq_refl). apply fresh_row_ok.
Qed.

(** X17.  Every row the module leaves fits its table: [dropped] is 0 or 1,
    the timestamp is an unsigned 64-bit value, and the actor, when not NULL,
    is a non-empty name of at most 63 bytes without apostrophe or quotation
    mark (so it cannot end the SQL string literal it is written in).  A row
    with these properties keeps them through every operation of either
    script, and the row [EnsureTable] creates has them. *)
Theorem rows_fit_the_table (host : Host) (op : Operation) (w : World) :
  db_ok w -> db_ok (exec host op w).
Proof.
  intros Hw. destruct op; cbn [exec].
  - now apply db_ok_ensure.
  - unfold LoadDroppedState. destruct (db w) eqn:E;
      apply (db_ok_same w); try reflexivity; exact Hw.
  - now apply db_ok_reset.
  - now apply db_ok_kill_phase.
  - now apply db_ok_loot_phase.
  - now apply db_ok_kill_phase.
  - exact Hw.
  - exact Hw.
  - destruct l; exact Hw.
  - unfold OnAfterConfigLoad. cbn zeta.
    set (w1 := MaybeResetState (EnsureTable (set_conf (load_conf cfg) w))).
    assert (H1 : db_ok w1).
    { unfold w1. apply db_ok_reset, db_ok_ensure.
      apply (db_ok_same w); [reflexivity | exact Hw]. }
    apply (db_ok_same (LoadDroppedState w1)); [reflexivity|].
    unfold LoadDroppedState. destruct (db w1) eqn:E;
      apply (db_ok_same w1); try reflexivity; exact H1.
  - destruct (kill_passes w killer killed urand) eqn:E.
    + destruct (TwoPhase_kill_grant host w killer killed t urand E)
        as [cr [_ ->]]. cbn [fst].
      apply (db_ok_same
               (PersistDropped_KillPhase killer t
                  (emit (CallAddItem (MakeLootStoreItem ITEM_TALISMAN)) w)));
        [reflexivity|].
      apply db_ok_kill_phase. exact Hw.
    + now rewrite (TwoPhase_kill_skip host w killer killed t urand E).
  - unfold TwoPhase.OnPlayerLootItem.
    destruct looter; [|exact Hw]. destruct item as [it|]; [|exact Hw].
    destruct (negb (enable (gConf w))); [exact Hw|].
    destruct (negb (item_entry it =? ITEM_TALISMAN)); [exact Hw|].
    apply db_ok_loot_phase. exact Hw.
  - destruct (kill_passes w killer killed urand) eqn:E.
    + destruct (SinglePhase_kill_grant host w killer killed t urand E)
        as [cr [_ ->]]. cbn [fst].
      apply (db_ok_same
               (PersistDropped_KillPhase killer t
                  (emit (CallAddItem (MakeLootStoreItem ITEM_TALISMAN)) w)));
        [reflexivity|].
      apply db_ok_kill_phase. exact Hw.
    + now rewrite (SinglePhase_kill_skip host w killer killed t urand E).
Qed.

Lemma rows_fit_the_table_witness :
  db_ok (exec sample_host
           (CallOnPlayerLootItem (Some {| player_name := bell_name |})
              (Some {| item_entry := ITEM_TALISMAN |}) (GuidCreature 7)
              (-1))
           world_ready).
Proof.
  apply (rows_fit_the_table sample_host). intros r H.
  inversion H. apply fresh_row_ok.
Defined.

(** ** The conversion of the chance option *)

Lemma to_Q_scaled (s : bool) (m : positive) (e K : Z) :
  0 <= K -> 0 <= e + K ->
  (Double.to_Q (S754_finite s m e) * inject_Z (2 ^ K)
   == inject_Z ((if s then Zneg m else Zpos m) * 2 ^ (e + K)))%Q.
Proof.
  intros HK HeK. unfold Double.to_Q. cbv zeta.
  set (z := if s then Zneg m else Zpos m).
  destruct e as [|p|p].
  - unfold Qeq, inject_Z, Qmult. cbn [Qnum Qden].
    rewrite Z.pow_0_r, Z.add_0_l. lia.
  - unfold Qeq, inject_Z, Qmult. cbn [Qnum Qden].
    rewrite Z.pow_add_r by lia. lia.
  - unfold Qeq, inject_Z, Qmult. cbn [Qnum Qden].
    rewrite Pos.mul_1_r, Pos2Z.inj_pow, Z.mul_1_r.
    replace K with ((Zneg p + K) + Zpos p) at 1 by lia.
    rewrite Z.pow_add_r by lia. ring.
Qed.

(** X18.  The implicit conversion of the chance option from [float] to
    [double] is exact: the double is a valid binary64 value with the same
    rational value as the float (zeros, infinities and NaN pass as they
    are).  So a chance that is not clamped is the very number that was read. *)
Theorem to_double_exact (f : single) :
  Single.valid f = true ->
  Double.valid (Single.to_double f) = true
  /\ (Double.to_Q (Single.to_double f) == Double.to_Q f)%Q
  /\ match f with
     | S754_finite _ _ _ => True
     | _ => Single.to_double f = f
     end.
Proof.
  intros Hv. destruct f as [s|s| |s m e];
    try (split; [reflexivity|split; reflexivity]).
  destruct (single_valid_bounds s m e Hv) as [Hs [He _]].
  rewrite (to_double_norm64 s m e Hv).
  set (u := 53 - Zpos (Pos.size m)).
  assert (Hu : 0 <= u <= 52) by (unfold u; lia).
  assert (Hm : Zpos (Z.to_pos (Zpos m * 2 ^ u)) = Zpos m * 2 ^ u)
    by (apply norm64_mantissa; lia).
  split; [|split].
  - unfold Double.valid, valid_binary, bounded, Double.norm64.
    rewrite norm64_canonical by lia. apply Z.leb_le.
    unfold Double.emax, Double.prec. lia.
  - unfold Double.norm64. fold u.
    apply (Qmult_inj_r _ _ (inject_Z (2 ^ 1200))); [discriminate|].
    rewrite !to_Q_scaled by lia.
    assert (Hz : (if s then Zneg (Z.to_pos (Zpos m * 2 ^ u))
                  else Zpos (Z.to_pos (Zpos m * 2 ^ u)))
                 = (if s then Zneg m else Zpos m) * 2 ^ u).
    { destruct s; [|exact Hm].
      change (Zneg (Z.to_pos (Zpos m * 2 ^ u)))
        with (- Zpos (Z.to_pos (Zpos m * 2 ^ u))).
      rewrite Hm. change (Zneg m) with (- Zpos m). ring. }
    rewrite Hz, <- Z.mul_assoc, <- Z.pow_add_r by lia.
    replace (u + (e - u + 1200)) with (e + 1200) by lia. reflexivity.
  - exact I.
Qed.

Lemma to_double_exact_witness :
  (Double.to_Q (Single.to_double (S754_finite false 13421773 (-27)))
   == Double.to_Q (S754_finite false 13421773 (-27)))%Q.
Proof.
  pose proof (to_double_exact (S754_finite false 13421773 (-27)) eq_refl)
    as [_ [H _]].
  exact H.
Defined.

(** ** The threshold grows with the chance *)

Lemma SFleb_finite (q : positive) (E : Z) (q' : positive) (E' : Z) :
  SFleb (S754_finite false q E) (S754_finite false q' E') = true ->
  E < E' \/ (E = E' /\ Zpos q <= Zpos q').
Proof.
  unfold SFleb, SFcompare.
  destruct (Z.compare_spec E E') as [Heq|Hlt|Hgt]; try discriminate.
  - fold (Pos.compare q q').
    destruct (Pos.compare_spec q q'); try discriminate; intros _; right; lia.
  - intros _. now left.
Qed.

(** The value of a binary32 number, scaled by [2^201], read off its
    canonical binary64 form. *)
Lemma norm64_scaled (m : positive) (e : Z) :
  Single.valid (S754_finite false m e) = true ->
  let u := 53 - Zpos (Pos.size m) in
  let q := Zpos (Z.to_pos (Zpos m * 2 ^ u)) in
  2 ^ 52 <= q < 2 ^ 53
  /\ 0 <= e - u + 201
  /\ Zpos m * 2 ^ (e + 201) = q * 2 ^ (e - u + 201).
Proof.
  intros Hv u q. destruct (single_valid_bounds false m e Hv) as [Hs [He _]].
  assert (Hu : 0 <= u <= 52) by (unfold u; lia).
  assert (Hq : q = Zpos m * 2 ^ u) by (apply norm64_mantissa; lia).
  assert (Hl : Z.log2 q = 52).
  { rewrite Hq, log2_shift by lia. pose proof (Zpos_size_log2 m).
    unfold u. lia. }
  assert (Hq0 : 0 < q) by (unfold q; lia).
  pose proof (Z.log2_spec q Hq0) as Hspec. rewrite Hl in Hspec.
  split; [exact Hspec|]. split; [lia|].
  rewrite Hq, <- Z.mul_assoc, <- Z.pow_add_r by lia.
  do 2 f_equal. lia.
Qed.

Lemma threshold_scaled (m : positive) (e : Z) :
  -149 <= e <= -17 ->
  (200 * Zpos m + 2 ^ (- e)) / 2 ^ (1 - e)
  = (200 * (Zpos m * 2 ^ (e + 201)) + 2 ^ 201) / 2 ^ 202.
Proof.
  intros He.
  assert (Hp : 0 < 2 ^ (e + 201)) by (apply pow2_pos; lia).
  assert (H1 : 2 ^ 201 = 2 ^ (- e) * 2 ^ (e + 201)).
  { rewrite <- Z.pow_add_r by lia. f_equal. lia. }
  assert (H2 : 2 ^ 202 = 2 ^ (1 - e) * 2 ^ (e + 201)).
  { rewrite <- Z.pow_add_r by lia. f_equal. lia. }
  rewrite H1, H2.
  replace (200 * (Zpos m * 2 ^ (e + 201)) + 2 ^ (- e) * 2 ^ (e + 201))
    with ((200 * Zpos m + 2 ^ (- e)) * 2 ^ (e + 201)) by ring.
  symmetry. apply Z.div_mul_cancel_r; [|lia].
  apply Z.neq_sym, Z.lt_neq, pow2_pos. lia.
Qed.

Lemma positive_above (a b : double) :
  Double.ltb Double.d0 a = true -> Double.leb a b = true ->
  Double.ltb Double.d0 b = true.
Proof.
  destruct a as [[|]|[|]| |[|] m e], b as [[|]|[|]| |[|] m' e'];
    try discriminate; reflexivity.
Qed.

Lemma SFltb_finite_intro (q : positive) (E : Z) (q' : positive) (E' : Z) :
  E < E' \/ (E = E' /\ Zpos q < Zpos q') ->
  SFltb (S754_finite false q E) (S754_finite false q' E') = true.
Proof.
  intros H. unfold SFltb, SFcompare.
  destruct (Z.compare_spec E E') as [Heq|Hlt|Hgt]; try lia; try reflexivity.
  fold (Pos.compare q q').
  destruct (Pos.compare_spec q q'); try reflexivity; lia.
Qed.

Lemma below_100_below (m : positive) (e : Z) (m' : positive) (e' : Z) :
  Double.leb (S754_finite false m e) (S754_finite false m' e') = true ->
  Double.ltb (S754_finite false m' e') Double.d100 = true ->
  Double.ltb (S754_finite false m e) Double.d100 = true.
Proof.
  unfold Double.ltb, Double.leb, Double.d100. intros Hle H100.
  apply SFleb_finite in Hle. apply SFltb_finite in H100.
  apply SFltb_finite_intro. lia.
Qed.

(** X19.  A higher chance never lowers the bar.  For two chances that
    configuration loads leave strictly between 0 and 100, the smaller one has
    the smaller (or equal) threshold, so a draw that passes the roll with the
    smaller chance passes it with the larger one. *)
Theorem threshold_monotone (cfg1 cfg2 : ConfigMgr) (urand : Z -> Z -> Z) :
  Single.valid (GetOption (opt_Chance cfg1) Single.f1) = true ->
  Single.valid (GetOption (opt_Chance cfg2) Single.f1) = true ->
  let c1 := chancePct (load_conf cfg1) in
  let c2 := chancePct (load_conf cfg2) in
  Double.ltb Double.d0 c1 = true -> Double.leb c1 c2 = true ->
  Double.ltb c2 Double.d100 = true ->
  need_of c1 <= need_of c2
  /\ (RollDrop urand c1 = true -> RollDrop urand c2 = true).
Proof.
  intros Hv1 Hv2. cbn zeta.
  generalize (configured_chance cfg1 Double.d100 Hv1 eq_refl).
  generalize (configured_chance cfg2 Double.d100 Hv2 eq_refl).
  cbn zeta.
  generalize (chancePct (load_conf cfg1)) as c1.
  generalize (chancePct (load_conf cfg2)) as c2.
  intros c2 c1 Hcfg2 Hcfg1 H0 Hle H100.
  destruct (Hcfg2 (positive_above c1 c2 H0 Hle) H100) as [m2 [e2 [Hm2 Hc2]]].
  subst c2.
  assert (H100' : Double.ltb c1 Double.d100 = true).
  { destruct c1 as [[|]|[|]| |[|] m e]; try discriminate.
    exact (below_100_below m e _ _ Hle H100). }
  destruct (Hcfg1 H0 H100') as [m1 [e1 [Hm1 Hc1]]].
  subst c1. clear Hcfg1 Hcfg2.
  pose proof (below_100_exponent m1 e1 Hm1 H100') as He1.
  pose proof (below_100_exponent m2 e2 Hm2 H100) as He2.
  destruct (single_valid_bounds false m1 e1 Hm1) as [_ [Hlo1 _]].
  destruct (single_valid_bounds false m2 e2 Hm2) as [_ [Hlo2 _]].
  pose proof (single_mantissa_bound false m1 e1 Hm1) as Hb1.
  pose proof (single_mantissa_bound false m2 e2 Hm2) as Hb2.
  assert (Hneed : need_of (Double.norm64 false m1 e1)
                  <= need_of (Double.norm64 false m2 e2)).
  { rewrite !need_of_norm64 by lia. rewrite !threshold_scaled by lia.
    apply Z.div_le_mono; [reflexivity|].
    destruct (norm64_scaled m1 e1 Hm1) as [Hq1 [Hx1 ->]].
    destruct (norm64_scaled m2 e2 Hm2) as [Hq2 [Hx2 ->]].
    unfold Double.leb, Double.norm64 in Hle. apply SFleb_finite in Hle.
    set (q1 := Zpos (Z.to_pos (Zpos m1 * 2 ^ (53 - Zpos (Pos.size m1))))) in *.
    set (q2 := Zpos (Z.to_pos (Zpos m2 * 2 ^ (53 - Zpos (Pos.size m2))))) in *.
    set (x1 := e1 - (53 - Zpos (Pos.size m1)) + 201) in *.
    set (x2 := e2 - (53 - Zpos (Pos.size m2)) + 201) in *.
    assert (Hval : q1 * 2 ^ x1 <= q2 * 2 ^ x2).
    { destruct Hle as [Hlt|[Heq Hq]].
      - assert (Hx : x1 + 1 <= x2) by (unfold x1, x2; lia).
        assert (Hp1 : 0 < 2 ^ x1) by (apply pow2_pos; lia).
        assert (Hmono : 2 ^ (x1 + 1) <= 2 ^ x2)
          by (apply Z.pow_le_mono_r; lia).
        rewrite Z.pow_add_r in Hmono by lia. change (2 ^ 1) with 2 in Hmono.
        change (2 ^ 53) with (2 * 2 ^ 52) in Hq1.
        assert (0 < 2 ^ 52) by reflexivity. nia.
      - assert (Hx : x1 = x2) by (unfold x1, x2; lia). rewrite Hx.
        apply Z.mul_le_mono_nonneg_r; [|exact Hq].
        apply Z.lt_le_incl, pow2_pos. lia. }
    lia. }
  split; [exact Hneed|].
  rewrite (RollDrop_between urand m1 e1 Hm1 H100').
  rewrite (RollDrop_between urand m2 e2 Hm2 H100).
  rewrite !need_of_norm64 in Hneed by lia.
  intros H. apply Z.leb_le in H. apply Z.leb_le. lia.
Qed.

Lemma threshold_monotone_witness :
  need_of (chancePct (load_conf (cfg_chance (S754_finite false 8589935 (-31)))))
  <= need_of
       (chancePct (load_conf (cfg_chance (S754_finite false 13107200 (-20))))).
Proof.
  apply (threshold_monotone (cfg_chance (S754_finite false 8589935 (-31)))
           (cfg_chance (S754_finite false 13107200 (-20))) low_roll);
    reflexivity.
Defined.

(** ** How many draws pass *)

Lemma count_at_most (k : Z) (n : nat) :
  0 <= k ->
  List.length (filter (fun r => r <=? k) (List.map Z.of_nat (seq 1 n)))
  = Z.to_nat (Z.min k (Z.of_nat n)).
Proof.
  intros Hk. induction n as [|n IH].
  - cbn. rewrite Z.min_r by lia. reflexivity.
  - rewrite seq_S, map_app, filter_app, length_app, IH.
    cbn [List.map filter]. rewrite Nat.add_1_l.
    destruct (Z.of_nat (S n) <=? k) eqn:E.
    + apply Z.leb_le in E. cbn [List.length].
      rewrite Z.min_r, Z.min_r by lia. lia.
    + apply Z.leb_gt in E. cbn [List.length].
      rewrite Z.min_l, Z.min_l by lia. lia.
Qed.

(** X20.  The odds of the roll.  Of the 10000 values the draw can take,
    exactly [round(chance * 100)] pass the roll, for every chance that a
    configuration load leaves strictly between 0 and 100; none passes for a
    chance that is at most 0 and all pass for a chance that is at least
    100. *)
Theorem passing_draws (cfg : ConfigMgr) :
  Single.valid (GetOption (opt_Chance cfg) Single.f1) = true ->
  let c := chancePct (load_conf cfg) in
  let passes := filter (fun r => RollDrop (fun _ _ => r) c) draws in
  Z.of_nat (List.length draws) = 10000
  /\ (Double.leb c Double.d0 = true -> passes = [])
  /\ (Double.leb Double.d100 c = true -> passes = draws)
  /\ (Double.ltb Double.d0 c = true -> Double.ltb c Double.d100 = true ->
      Z.of_nat (List.length passes) = round_chance c).
Proof.
  intros Hv. cbn zeta.
  generalize (configured_chance cfg Double.d100 Hv eq_refl). cbn zeta.
  generalize (chancePct (load_conf cfg)) as c. intros c Hcfg.
  split; [unfold draws, scale; rewrite length_map, length_seq; lia|].
  split; [|split].
  - intros H0. unfold RollDrop. rewrite H0.
    induction draws as [|r l IH]; [reflexivity | exact IH].
  - intros H100. unfold RollDrop.
    rewrite (leb_100_excludes_leb_0 c H100), H100.
    induction draws as [|r l IH]; [reflexivity|]. cbn [filter]. now rewrite IH.
  - intros H0 H100. destruct (Hcfg H0 H100) as [m [e [Hvm ->]]].
    pose proof (threshold_range_norm64 m e Hvm H100) as Hrange.
    pose proof (below_100_exponent m e Hvm H100) as He.
    destruct (single_valid_bounds false m e Hvm) as [Hs [Hlo _]].
    pose proof (single_mantissa_bound false m e Hvm) as Hm.
    rewrite need_of_norm64 in Hrange by lia.
    rewrite round_chance_norm64 by lia.
    rewrite (filter_ext _ (fun r => r <=? (200 * Zpos m + 2 ^ (- e)) / 2 ^ (1 - e)))
      by (intros r; apply (RollDrop_between (fun _ _ => r) m e Hvm H100)).
    unfold draws. rewrite count_at_most by lia.
    unfold scale. rewrite Z2Nat.id by lia. lia.
Qed.

Lemma passing_draws_witness :
  Z.of_nat
    (List.length
       (filter
          (fun r =>
             RollDrop (fun _ _ => r)
               (chancePct
                  (load_conf (cfg_chance (S754_finite false 13107200 (-20))))))
          draws))
  = round_chance
      (chancePct (load_conf (cfg_chance (S754_finite false 13107200 (-20))))).
Proof.
  pose proof (passing_draws (cfg_chance (S754_finite false 13107200 (-20)))
                eq_refl) as [_ [_ [_ H]]].
  exact (H eq_refl eq_refl).
Defined.
